(** * The MCP patch engine of [src/mcp/server.ts]

    A shallow embedding of the sandboxed patch engine: root-confined path
    resolution ([withinRoot]), the patch parser ([parseSimplifiedPatch]),
    the applier ([applyParsedPatch], [rewriteFile]) and the two HTTP
    handlers installed by [attachMCPToServer].

    Conventions of the model.
    - A JavaScript string is a [string] whose characters are UTF-16 code
      units below 256 (the Latin-1 range); [trim] and [toLowerCase] are the
      ECMAScript functions restricted to that range.
    - [node:path] is modelled in its POSIX flavour (separator [/]), the one
      the roots [/ws] and [/a/b] of the specification live in.
    - [node:fs] is modelled as a finite map from absolute paths to nodes;
      a request runs to completion before the next one starts.
    - Numbers captured by the hunk header are the doubles [Number] gives,
      kept as naturals ([Infinity] as 2^1024);
      [Array.prototype.splice] clamps its arguments to the array length. *)

From Stdlib Require Import ZArith Ascii String.
From stdpp Require Import base option list strings gmap fin_maps.

Local Open Scope string_scope.

(** ** Results of fallible code *)

(** The failures of the engine, one constructor per [throw] of the source
    plus the failures of the file system. *)
Inductive error : Type :=
| SecurityError (relPath ROOT : string)
| MissingBeginMarker
| MissingHeader
| NotFoundForUpdate (path : string)
| InvalidRewritePath
| IoError (code syscall path : string).

Inductive result (A : Type) : Type :=
| Ok (a : A)
| Throw (e : error).
Arguments Ok {A} a.
Arguments Throw {A} e.

(** ** JavaScript string primitives *)

Module Js.

Definition LF : ascii := ascii_of_nat 10.
Definition CR : ascii := ascii_of_nat 13.
Definition slash : ascii := ascii_of_nat 47.
Definition nl : string := String LF "".
Definition dquote : string := String (ascii_of_nat 34) "".

(** [s.startsWith(p)] *)
Definition startsWith (s p : string) : bool := String.prefix p s.

(** [s.includes(p)] *)
Fixpoint includes (s p : string) : bool :=
  String.prefix p s ||
  match s with
  | EmptyString => false
  | String _ s' => includes s' p
  end.

(** [s.slice(n)] for a natural [n] *)
Fixpoint sliceFrom (n : nat) (s : string) : string :=
  match n, s with
  | O, _ => s
  | S n', String _ s' => sliceFrom n' s'
  | S _, EmptyString => EmptyString
  end.

(** [s.replace(pat, "")] for a string pattern: the first occurrence goes. *)
Fixpoint removeFirst (s pat : string) : string :=
  if String.prefix pat s then sliceFrom (String.length pat) s
  else match s with
       | EmptyString => EmptyString
       | String a s' => String a (removeFirst s' pat)
       end.

(** [s.slice(1)] *)
Definition slice1 (s : string) : string :=
  match s with
  | EmptyString => EmptyString
  | String _ s' => s'
  end.

(** [s.split(c)] for a one-character separator: never the empty list. *)
Fixpoint split (c : ascii) (s : string) : list string :=
  match s with
  | EmptyString => [EmptyString]
  | String a s' =>
      if Ascii.eqb a c then EmptyString :: split c s'
      else match split c s' with
           | h :: t => String a h :: t
           | [] => [String a EmptyString]
           end
  end.

(** [l.join(sep)] *)
Fixpoint join (sep : string) (l : list string) : string :=
  match l with
  | [] => EmptyString
  | [x] => x
  | x :: rest => x ++ sep ++ join sep rest
  end.

(** [s.replace(/\r\n/g, "\n")]: one left-to-right pass. *)
Fixpoint replaceCRLF (s : string) : string :=
  match s with
  | EmptyString => EmptyString
  | String a s' =>
      match s' with
      | String b s'' =>
          if Ascii.eqb a CR && Ascii.eqb b LF
          then String LF (replaceCRLF s'')
          else String a (replaceCRLF s')
      | EmptyString => String a EmptyString
      end
  end.

(** White space and line terminators of ECMAScript below code unit 256:
    TAB, LF, VT, FF, CR, SP and NBSP. *)
Definition isWhiteSpace (a : ascii) : bool :=
  let n := nat_of_ascii a in
  ((9 <=? n) && (n <=? 13) || (n =? 32) || (n =? 160))%nat.

Fixpoint trimStart (s : string) : string :=
  match s with
  | EmptyString => EmptyString
  | String a s' => if isWhiteSpace a then trimStart s' else s
  end.

Fixpoint trimEnd (s : string) : string :=
  match s with
  | EmptyString => EmptyString
  | String a s' =>
      match trimEnd s' with
      | EmptyString => if isWhiteSpace a then EmptyString else String a EmptyString
      | r => String a r
      end
  end.

(** [s.trim()] *)
Definition trim (s : string) : string := trimEnd (trimStart s).

(** Truthiness of a string: non-empty. *)
Definition truthy (s : string) : bool :=
  match s with
  | EmptyString => false
  | String _ _ => true
  end.

(** [toLowerCase] of one code unit below 256: A-Z, and the Latin-1 capitals
    U+00C0..U+00DE except the multiplication sign U+00D7. *)
Definition lowerChar (a : ascii) : ascii :=
  let n := nat_of_ascii a in
  if ((65 <=? n) && (n <=? 90) ||
      (192 <=? n) && (n <=? 222) && negb (n =? 215))%nat
  then ascii_of_nat (n + 32)
  else a.

(** [s.toLowerCase()] *)
Fixpoint toLowerCase (s : string) : string :=
  match s with
  | EmptyString => EmptyString
  | String a s' => String (lowerChar a) (toLowerCase s')
  end.

End Js.

(** ** The POSIX [node:path] functions the engine calls *)

Module NodePath.

(** [normalizeString(path, allowAboveRoot, "/", isPosixPathSeparator)]:
    the segments between separators are scanned left to right; an empty
    segment and [.] are dropped, [..] removes the last kept segment (or is
    kept when nothing is left to remove and [allowAboveRoot] is set), any
    other segment is kept.  The kept segments are held most recent first. *)
Fixpoint normalizeSegments (allowAboveRoot : bool) (kept segs : list string)
  : list string :=
  match segs with
  | [] => rev kept
  | seg :: rest =>
      if String.eqb seg "" || String.eqb seg "." then
        normalizeSegments allowAboveRoot kept rest
      else if String.eqb seg ".." then
        match kept with
        | top :: kept' =>
            if String.eqb top ".." then
              normalizeSegments allowAboveRoot
                (if allowAboveRoot then ".." :: kept else kept) rest
            else normalizeSegments allowAboveRoot kept' rest
        | [] =>
            normalizeSegments allowAboveRoot
              (if allowAboveRoot then [".."] else []) rest
        end
      else normalizeSegments allowAboveRoot (seg :: kept) rest
  end.

Definition normalizeString (path : string) (allowAboveRoot : bool) : string :=
  Js.join "/" (normalizeSegments allowAboveRoot [] (Js.split Js.slash path)).

Definition isAbsolute (path : string) : bool := Js.startsWith path "/".

Fixpoint endsWithSlash (path : string) : bool :=
  match path with
  | EmptyString => false
  | String a EmptyString => Ascii.eqb a Js.slash
  | String _ rest => endsWithSlash rest
  end.

(** The right-to-left loop of [path.resolve]: arguments are prepended until
    an absolute one is met; the working directory is the last resort. *)
Fixpoint resolveLoop (cwd : string) (revArgs : list string) (resolved : string)
  : string * bool :=
  match revArgs with
  | [] =>
      if Js.truthy cwd then (cwd ++ "/" ++ resolved, isAbsolute cwd)
      else (resolved, false)
  | p :: rest =>
      if Js.truthy p then
        if isAbsolute p then (p ++ "/" ++ resolved, true)
        else resolveLoop cwd rest (p ++ "/" ++ resolved)
      else resolveLoop cwd rest resolved
  end.

(** [path.resolve(...args)] in a process whose working directory is [cwd]. *)
Definition resolve (cwd : string) (args : list string) : string :=
  let '(resolvedPath, resolvedAbsolute) := resolveLoop cwd (rev args) "" in
  let normalized := normalizeString resolvedPath (negb resolvedAbsolute) in
  if resolvedAbsolute then "/" ++ normalized
  else if Js.truthy normalized then normalized else ".".

(** [path.normalize(path)] *)
Definition normalize (path : string) : string :=
  if negb (Js.truthy path) then "."
  else
    let absolute := isAbsolute path in
    let trailing := endsWithSlash path in
    let p := normalizeString path (negb absolute) in
    if negb (Js.truthy p) then
      if absolute then "/" else if trailing then "./" else "."
    else
      let p' := if trailing then p ++ "/" else p in
      if absolute then "/" ++ p' else p'.

Fixpoint dropWhile {A : Type} (f : A -> bool) (l : list A) : list A :=
  match l with
  | [] => []
  | x :: l' => if f x then dropWhile f l' else l
  end.

(** [path.dirname(path)]: the scan runs from the last character down to
    index 1, skips trailing separators, then the last segment, and cuts at
    the separator before it. *)
Definition dirname (path : string) : string :=
  match path with
  | EmptyString => "."
  | String first body =>
      let hasRoot := Ascii.eqb first Js.slash in
      let isSep := fun a => Ascii.eqb a Js.slash in
      let afterSlashes := dropWhile isSep (rev (list_ascii_of_string body)) in
      let afterSegment := dropWhile (fun a => negb (isSep a)) afterSlashes in
      match afterSegment with
      | [] => if hasRoot then "/" else "."
      | _ :: before =>
          if hasRoot && bool_decide (before = []) then "//"
          else String first (string_of_list_ascii (rev before))
      end
  end.

End NodePath.

(** ** Root-safe path resolution *)

(** [withinRoot(getRoot, relPath)], in a process whose working directory is
    [cwd] and whose root provider returns [root] on this call. *)
Definition withinRoot (cwd root relPath : string) : result string :=
  let ROOT := NodePath.resolve cwd [root] in
  let rel := if Js.truthy relPath && Js.truthy (Js.trim relPath)
             then relPath else "." in
  let abs := NodePath.resolve cwd [ROOT; rel] in
  let rootNorm := Js.toLowerCase (NodePath.normalize ROOT) in
  let absNorm := Js.toLowerCase (NodePath.normalize abs) in
  if negb (Js.startsWith absNorm rootNorm)
  then Throw (SecurityError relPath ROOT)
  else Ok abs.

(** What containment under a directory means: the path is the root itself
    or the root followed by a separator.  For the root [/] every absolute
    path is below it. *)
Definition underRoot (ROOT abs : string) : bool :=
  String.eqb abs ROOT ||
  Js.startsWith abs (if NodePath.endsWithSlash ROOT then ROOT else ROOT ++ "/").

(** ** Patch types *)

Inductive LineType : Type := Context | Add | Remove.

Record PatchHunkLine : Type := mkLine { type : LineType; text : string }.

Record Range : Type := mkRange { start : N; count : N }.

Record PatchHunk : Type := mkHunk {
  oldRange : Range;
  newRange : Range;
  lines : list PatchHunkLine
}.

Inductive Op : Type := OpAdd | OpUpdate | OpDelete.

Record ParsedPatch : Type := mkPatch {
  op : Op;
  path : string;
  newContent : option string;
  hunks : list PatchHunk
}.

(** The JSON rendering of [op]. *)
Definition opName (o : Op) : string :=
  match o with
  | OpAdd => "add"
  | OpUpdate => "update"
  | OpDelete => "delete"
  end.

(** ** Parse patch *)

(** The value of a capture of [\d+], read left to right. *)
Definition digitValue (a : ascii) : option N :=
  let n := N_of_ascii a in
  if ((48 <=? n) && (n <=? 57))%N then Some (n - 48)%N else None.

Fixpoint takeDigits (acc : N) (s : string) : N * string :=
  match s with
  | EmptyString => (acc, EmptyString)
  | String a s' =>
      match digitValue a with
      | Some d => takeDigits (10 * acc + d)%N s'
      | None => (acc, s)
      end
  end.

(** [Number(m)] of a decimal numeral of value [n]: the double nearest to
    [n], ties going to the even significand.  Below 2^53 that is [n]
    itself.  From 2^1024 - 2^970 on it is [Infinity], which is written here
    as 2^1024, a value no double has; the numbers of a header reach only
    [splice], which clamps it as it clamps [Infinity]. *)
Definition infinity : N := (2 ^ 1024)%N.

Definition toDouble (n : N) : N :=
  if (n <? 2 ^ 53)%N then n
  else
    let e := (N.log2 n - 52)%N in
    let q := N.shiftr n e in
    let r := N.land n (N.ones e) in
    let half := N.shiftl 1 (e - 1) in
    let q' := if (half <? r)%N || ((r =? half)%N && N.odd q)
              then (q + 1)%N else q in
    N.min (N.shiftl q' e) infinity.

(** One group [(\d+)], at least one digit and as many as there are, and the
    [Number] of it. *)
Definition digits (s : string) : option (N * string) :=
  match s with
  | EmptyString => None
  | String a s' =>
      match digitValue a with
      | Some d => let '(n, rest) := takeDigits d s' in Some (toDouble n, rest)
      | None => None
      end
  end.

Definition literal (lit s : string) : option string :=
  if String.prefix lit s then Some (Js.sliceFrom (String.length lit) s)
  else None.

(** [line.match(/^@@ -(\d+),(\d+) \+(\d+),(\d+) @@/)]: the four captures. *)
Definition hunkHeader (line : string) : option (N * N * N * N) :=
  s1 ← literal "@@ -" line;
  '(oldStart, s2) ← digits s1;
  s3 ← literal "," s2;
  '(oldCount, s4) ← digits s3;
  s5 ← literal " +" s4;
  '(newStart, s6) ← digits s5;
  s7 ← literal "," s6;
  '(newCount, s8) ← digits s7;
  _ ← literal " @@" s8;
  Some (oldStart, oldCount, newStart, newCount).

(** The first loop: the first header line in source order decides. *)
Fixpoint findHeader (ls : list string) : option (Op * string) :=
  match ls with
  | [] => None
  | line :: rest =>
      if Js.startsWith line "*** Add File:" then
        Some (OpAdd, Js.trim (Js.removeFirst line "*** Add File:"))
      else if Js.startsWith line "*** Update File:" then
        Some (OpUpdate, Js.trim (Js.removeFirst line "*** Update File:"))
      else if Js.startsWith line "*** Delete File:" then
        Some (OpDelete, Js.trim (Js.removeFirst line "*** Delete File:"))
      else findHeader rest
  end.

(** The loop of the add branch. *)
Fixpoint contentLines (ls : list string) : list string :=
  match ls with
  | [] => []
  | l :: rest =>
      if Js.startsWith l "+" && negb (Js.startsWith l "+++")
      then Js.slice1 l :: contentLines rest
      else contentLines rest
  end.

Definition pushLine (h : PatchHunk) (ln : PatchHunkLine) : PatchHunk :=
  mkHunk (oldRange h) (newRange h) (lines h ++ [ln]).

Definition pushCurrent (hs : list PatchHunk) (current : option PatchHunk)
  : list PatchHunk :=
  match current with
  | Some h => hs ++ [h]
  | None => hs
  end.

(** The loop of the update branch, with its two mutable variables. *)
Fixpoint parseHunks (ls : list string) (hs : list PatchHunk)
    (current : option PatchHunk) : list PatchHunk :=
  match ls with
  | [] => pushCurrent hs current
  | line :: rest =>
      match hunkHeader line with
      | Some (a, b, c, d) =>
          parseHunks rest (pushCurrent hs current)
            (Some (mkHunk (mkRange a b) (mkRange c d) []))
      | None =>
          match current with
          | Some h =>
              if Js.startsWith line "+" && negb (Js.startsWith line "+++") then
                parseHunks rest hs (Some (pushLine h (mkLine Add (Js.slice1 line))))
              else if Js.startsWith line "-" && negb (Js.startsWith line "---") then
                parseHunks rest hs (Some (pushLine h (mkLine Remove (Js.slice1 line))))
              else if negb (Js.startsWith line "***") && negb (Js.startsWith line "@@") then
                parseHunks rest hs (Some (pushLine h (mkLine Context line)))
              else parseHunks rest hs current
          | None => parseHunks rest hs None
          end
      end
  end.

Definition patchLines (raw : string) : list string :=
  Js.split Js.LF (Js.replaceCRLF raw).

Definition parseSimplifiedPatch (raw : string) : result ParsedPatch :=
  let ls := patchLines raw in
  if negb (Js.includes (hd "" ls) "*** Begin Patch") then Throw MissingBeginMarker
  else
    match findHeader ls with
    | None => Throw MissingHeader
    | Some (o, filePath) =>
        if negb (Js.truthy filePath) then Throw MissingHeader
        else
          match o with
          | OpDelete => Ok (mkPatch OpDelete filePath None [])
          | OpAdd =>
              let cl := contentLines ls in
              let final := Js.join Js.nl cl ++
                           (if bool_decide (cl = []) then "" else Js.nl) in
              Ok (mkPatch OpAdd filePath (Some final) [])
          | OpUpdate => Ok (mkPatch OpUpdate filePath None (parseHunks ls [] None))
          end
    end.

(** ** The file system *)

Module NodeFs.

Inductive node : Type :=
| File (content : string)
| Dir.

(** The tree, and the directories and files the process may not write
    (paths are taken to hold no NUL code unit, which the runtime refuses
    before any system call):
    an entry cannot be created in or removed from a directory of
    [readOnly], and a file of [readOnly] cannot be overwritten. *)
Record state : Type := mkState {
  nodes : gmap string node;
  readOnly : gset string
}.

(** A computation on the file system: it may throw, and it leaves a file
    system behind either way. *)
Definition io (A : Type) : Type := state -> result A * state.

Definition ret {A : Type} (a : A) : io A := fun st => (Ok a, st).

Definition throw {A : Type} (e : error) : io A := fun st => (Throw e, st).

Definition lift {A : Type} (r : result A) : io A := fun st => (r, st).

Definition bindIo {A B : Type} (m : io A) (k : A -> io B) : io B :=
  fun st =>
    match m st with
    | (Ok a, st') => k a st'
    | (Throw e, st') => (Throw e, st')
    end.

(** [try { m } catch (e) { handler(e) }] *)
Definition tryCatch {A : Type} (m : io A) (handler : error -> io A) : io A :=
  fun st =>
    match m st with
    | (Ok a, st') => (Ok a, st')
    | (Throw e, st') => handler e st'
    end.

Definition lookupNode (st : state) (p : string) : option node :=
  if String.eqb p "/" then Some Dir else nodes st !! p.

Definition writable (st : state) (p : string) : bool :=
  bool_decide (p ∉ readOnly st).

(** [fs.readFile(p, "utf8")] *)
Definition readFile (p : string) : io string :=
  fun st =>
    match lookupNode st p with
    | Some (File c) => (Ok c, st)
    | Some Dir => (Throw (IoError "EISDIR" "read" p), st)
    | None => (Throw (IoError "ENOENT" "open" p), st)
    end.

(** [fs.unlink(p)] *)
Definition unlink (p : string) : io unit :=
  fun st =>
    match lookupNode st p with
    | None => (Throw (IoError "ENOENT" "unlink" p), st)
    | Some Dir => (Throw (IoError "EISDIR" "unlink" p), st)
    | Some (File _) =>
        if writable st (NodePath.dirname p)
        then (Ok tt, mkState (delete p (nodes st)) (readOnly st))
        else (Throw (IoError "EACCES" "unlink" p), st)
    end.

(** [fs.writeFile(p, content, "utf8")] *)
Definition writeFile (p content : string) : io unit :=
  fun st =>
    match lookupNode st p with
    | Some Dir => (Throw (IoError "EISDIR" "open" p), st)
    | Some (File _) =>
        if writable st p
        then (Ok tt, mkState (<[p := File content]> (nodes st)) (readOnly st))
        else (Throw (IoError "EACCES" "open" p), st)
    | None =>
        match lookupNode st (NodePath.dirname p) with
        | Some Dir =>
            if writable st (NodePath.dirname p)
            then (Ok tt, mkState (<[p := File content]> (nodes st)) (readOnly st))
            else (Throw (IoError "EACCES" "open" p), st)
        | Some (File _) => (Throw (IoError "ENOTDIR" "open" p), st)
        | None => (Throw (IoError "ENOENT" "open" p), st)
        end
    end.

(** The directories on the way to an absolute path, outermost first. *)
Fixpoint pathPrefixes (base : string) (segs : list string) : list string :=
  match segs with
  | [] => []
  | seg :: rest =>
      if Js.truthy seg
      then (base ++ "/" ++ seg) :: pathPrefixes (base ++ "/" ++ seg) rest
      else pathPrefixes base rest
  end.

(** The walk of a recursive [mkdir]: a file in the place of the last
    directory answers EEXIST, a file on the way ENOTDIR, and a directory
    that may not be created is the one the error names. *)
Fixpoint mkdirEach (target : string) (dirs : list string) : io unit :=
  match dirs with
  | [] => ret tt
  | d :: rest =>
      fun st =>
        match lookupNode st d with
        | Some Dir => mkdirEach target rest st
        | Some (File _) =>
            (Throw (IoError (if bool_decide (rest = []) then "EEXIST"
                             else "ENOTDIR") "mkdir" target), st)
        | None =>
            if writable st (NodePath.dirname d)
            then mkdirEach target rest
                   (mkState (<[d := Dir]> (nodes st)) (readOnly st))
            else (Throw (IoError "EACCES" "mkdir" d), st)
        end
  end.

(** [fs.mkdir(p, { recursive: true })] *)
Definition mkdir (p : string) : io unit :=
  mkdirEach p (pathPrefixes "" (Js.split Js.slash p)).

End NodeFs.

Notation "'await!' x ':=' m 'in' k" := (NodeFs.bindIo m (fun x => k))
  (at level 10, x name, m at level 100, k at level 200).

(** ** Apply patch *)

(** [l.splice(start, deleteCount, ...items)], returning the array left
    behind: a negative [start] counts from the end, and both arguments are
    clamped to the array. *)
Definition splice {A : Type} (l : list A) (start deleteCount : Z)
    (items : list A) : list A :=
  let len := Z.of_nat (length l) in
  let actualStart :=
    if (start <? 0)%Z then Z.max (len + start) 0 else Z.min start len in
  let actualDeleteCount := Z.min (Z.max deleteCount 0) (len - actualStart) in
  take (Z.to_nat actualStart) l ++ items ++
  drop (Z.to_nat (actualStart + actualDeleteCount)) l.

(** The inner loop: the texts of the add and context lines. *)
Fixpoint replacement (lns : list PatchHunkLine) : list string :=
  match lns with
  | [] => []
  | ln :: rest =>
      match type ln with
      | Add | Context => text ln :: replacement rest
      | Remove => replacement rest
      end
  end.

Definition applyHunk (ls : list string) (h : PatchHunk) : list string :=
  let start := (Z.of_N (start (oldRange h)) - 1)%Z in
  splice ls start (Z.of_N (count (oldRange h))) (replacement (lines h)).

(** The outer loop over [parsed.hunks]. *)
Fixpoint applyHunks (ls : list string) (hs : list PatchHunk) : list string :=
  match hs with
  | [] => ls
  | h :: rest => applyHunks (applyHunk ls h) rest
  end.

Section Engine.

(** The working directory of the process and the value the root provider
    returns on this call. *)
Variables (cwd root : string).

Definition applyParsedPatch (parsed : ParsedPatch) : NodeFs.io unit :=
  await! abs := NodeFs.lift (withinRoot cwd root (path parsed)) in
  match op parsed with
  | OpDelete =>
      NodeFs.tryCatch (NodeFs.unlink abs) (fun _ => NodeFs.ret tt)
  | OpAdd =>
      await! _ := NodeFs.mkdir (NodePath.dirname abs) in
      NodeFs.writeFile abs (default "" (newContent parsed))
  | OpUpdate =>
      await! original :=
        NodeFs.tryCatch (NodeFs.readFile abs)
          (fun _ => NodeFs.throw (NotFoundForUpdate (path parsed))) in
      let ls := Js.split Js.LF (Js.replaceCRLF original) in
      let ls' := applyHunks ls (hunks parsed) in
      let finalText := Js.join Js.nl ls' ++ Js.nl in
      NodeFs.writeFile abs finalText
  end.

Definition rewriteFile (pathRel content : string) : NodeFs.io unit :=
  await! abs := NodeFs.lift (withinRoot cwd root pathRel) in
  await! _ := NodeFs.mkdir (NodePath.dirname abs) in
  NodeFs.writeFile abs content.

End Engine.

(** ** HTTP API *)

(** The text the runtime attaches to an error code. *)
Definition describe (code : string) : string :=
  if String.eqb code "ENOENT" then "no such file or directory"
  else if String.eqb code "EACCES" then "permission denied"
  else if String.eqb code "EISDIR" then "illegal operation on a directory"
  else if String.eqb code "ENOTDIR" then "not a directory"
  else if String.eqb code "EEXIST" then "file already exists"
  else "unknown error".

(** [e.message] *)
Definition message (e : error) : string :=
  match e with
  | SecurityError relPath ROOT =>
      "Refusing to write outside root. rel=" ++ Js.dquote ++ relPath ++
      Js.dquote ++ ", root=" ++ Js.dquote ++ ROOT ++ Js.dquote
  | MissingBeginMarker => "Patch missing *** Begin Patch"
  | MissingHeader => "Patch must contain one of Add/Update/Delete headers"
  | NotFoundForUpdate p => "File not found for update: " ++ p
  | InvalidRewritePath => "Missing or invalid 'path' for rewrite_file"
  | IoError code syscall p =>
      code ++ ": " ++ describe code ++ ", " ++ syscall ++ " '" ++ p ++ "'"
  end.

(** The two bodies a handler answers with: status 200 and
    [{ok: true, path, op}], or status 400 and [{error}]. *)
Inductive response : Type :=
| Success (path op : string)
| Failure (error : string).

Definition statusCode (r : response) : Z :=
  match r with
  | Success _ _ => 200
  | Failure _ => 400
  end.

(** [e.message || String(e)] *)
Definition errorText (e : error) : string :=
  if Js.truthy (message e) then message e else "Error".

(** A field of the parsed request body, as far as [typeof] tells. *)
Inductive jsValue : Type :=
| JsUndefined
| JsString (s : string)
| JsNonString.

Section Handlers.

Variables (cwd root : string).

(** [POST /mcp/apply_patch]; [patch] is the field of the body when it is a
    string, so that [String(patch || "")] is the string or empty. *)
Definition apply_patch (patch : option string) : NodeFs.state -> response * NodeFs.state :=
  fun st =>
    match parseSimplifiedPatch (default "" patch) with
    | Throw e => (Failure (errorText e), st)
    | Ok parsed =>
        match applyParsedPatch cwd root parsed st with
        | (Ok _, st') => (Success (path parsed) (opName (op parsed)), st')
        | (Throw e, st') => (Failure (errorText e), st')
        end
    end.

(** [POST /mcp/rewrite_file] *)
Definition rewrite_file (relPath content : jsValue) : NodeFs.state -> response * NodeFs.state :=
  fun st =>
    match relPath with
    | JsString p =>
        if negb (Js.truthy (Js.trim p)) then (Failure (errorText InvalidRewritePath), st)
        else
          let c := match content with JsString c => c | _ => "" end in
          match rewriteFile cwd root p c st with
          | (Ok _, st') => (Success p "rewrite", st')
          | (Throw e, st') => (Failure (errorText e), st')
          end
    | _ => (Failure (errorText InvalidRewritePath), st)
    end.

End Handlers.

(** ** The properties in the words of the specification

    Definitions that follow the wording of the specification, to be
    compared with the loops of the source. *)

(** What a handler makes of the outcome of the applier. *)
Definition respond (path op : string) (r : result unit * NodeFs.state)
  : response * NodeFs.state :=
  match r with
  | (Ok _, st') => (Success path op, st')
  | (Throw e, st') => (Failure (errorText e), st')
  end.

(** The directories [fs.mkdir] walks through for the parent of a path. *)
Definition parentDirs (abs : string) : list string :=
  NodeFs.pathPrefixes "" (Js.split Js.slash (NodePath.dirname abs)).

(** A directory a recursive [mkdir] gets past: it is there, or it is not
    and may be created in its parent. *)
Definition creatable (st : NodeFs.state) (d : string) : Prop :=
  NodeFs.lookupNode st d = Some NodeFs.Dir \/
  (NodeFs.lookupNode st d = None /\
   NodeFs.writable st (NodePath.dirname d) = true).

(** A NUL code unit in a path: the runtime refuses such a path before any
    system call. *)
Fixpoint hasNul (p : string) : bool :=
  match p with
  | EmptyString => false
  | String a p' => Ascii.eqb a Ascii.zero || hasNul p'
  end.

(** The content [rewrite_file] passes on: the field when it is a string,
    the empty string otherwise. *)
Definition contentText (content : jsValue) : string :=
  match content with
  | JsString c => c
  | _ => ""
  end.

(** The content of an added file as the specification words it: the lines
    that begin with [+] but not with [+++], without their first character,
    joined with newline and closed by one newline if there is any. *)
Definition isAddedLine (l : string) : bool :=
  Js.startsWith l "+" && negb (Js.startsWith l "+++").

Definition addContentSpec (ls : list string) : string :=
  let texts := map Js.slice1 (List.filter isAddedLine ls) in
  match texts with
  | [] => ""
  | _ => Js.join Js.nl texts ++ Js.nl
  end.

(** The splice as the specification words it: the lines before the index
    stay, the block takes the place of the next [c] lines, the lines after
    them follow. *)
Definition spliceAt {A : Type} (ls : list A) (i c : nat) (block : list A)
  : list A :=
  take i ls ++ block ++ drop (i + c) ls.

(** The replacement block as the specification words it: the texts of the
    lines whose kind is add or context, in hunk-line order. *)
Definition keepsText (ln : PatchHunkLine) : bool :=
  match type ln with
  | Remove => false
  | Add | Context => true
  end.

Definition replacementSpec (lns : list PatchHunkLine) : list string :=
  map text (List.filter keepsText lns).

Definition applyHunkSpec (ls : list string) (h : PatchHunk) : list string :=
  spliceAt ls (N.to_nat (start (oldRange h)) - 1)
    (N.to_nat (count (oldRange h))) (replacementSpec (lines h)).


(** The ranges announced by the hunk headers of a patch, in source order. *)
Definition headerOldRange (line : string) : option Range :=
  match hunkHeader line with
  | Some (a, b, _, _) => Some (mkRange a b)
  | None => None
  end.

(** A segment as [path.resolve] leaves it: not empty, not [.] or [..], and
    free of separators. *)
Definition cleanSegment (seg : string) : Prop :=
  seg <> "" /\ seg <> "." /\ seg <> ".." /\ Js.split Js.slash seg = [seg].

(** The text of a line without the CR that ends it, if one does. *)
Fixpoint dropTrailingCR (l : string) : string :=
  match l with
  | EmptyString => EmptyString
  | String a l' =>
      match l' with
      | EmptyString => if Ascii.eqb a Js.CR then EmptyString else l
      | String _ _ => String a (dropTrailingCR l')
      end
  end.

(** CR LF line ends converted to LF, told on the pieces between the LFs of a
    text: every piece that an LF follows, that is every piece but the last,
    gives up the CR at its end. *)
Fixpoint lineEndsToLF (pieces : list string) : list string :=
  match pieces with
  | [] => []
  | [l] => [l]
  | l :: rest => dropTrailingCR l :: lineEndsToLF rest
  end.

(** ** Fixtures *)

(** A text given line by line. *)
Definition unlines (l : list string) : string := Js.join Js.nl l.

(** The patch and the sandbox of the end-to-end scenario: root [/ws] with
    the file [a.txt] holding the lines [one], [two], [three]. *)
Definition scenarioPatch : string :=
  unlines ["*** Begin Patch"; "*** Update File: a.txt"; "@@ -2,1 +2,1 @@";
           "-two"; "+TWO"; "*** End Patch"].

Definition scenarioFs : NodeFs.state :=
  NodeFs.mkState
    (<["/ws/a.txt" := NodeFs.File (unlines ["one"; "two"; "three"; ""])]>
       (<["/ws" := NodeFs.Dir]> ∅))
    ∅.

(** The same sandbox with its root directory write-protected: no entry of
    [/ws] can be removed. *)
Definition protectedFs : NodeFs.state :=
  NodeFs.mkState (NodeFs.nodes scenarioFs) {["/ws"]}.

(** The sandbox with the file [a.txt] in CR LF line ends. *)
Definition crlfFs : NodeFs.state :=
  NodeFs.mkState
    (<["/ws/a.txt" :=
         NodeFs.File (Js.join (String Js.CR Js.nl) ["one"; "two"; ""])]>
       (<["/ws" := NodeFs.Dir]> ∅))
    ∅.

(** An update that carries no hunk. *)
Definition emptyUpdatePatch : string :=
  unlines ["*** Begin Patch"; "*** Update File: a.txt"; "*** End Patch"].

Definition deletePatch (target : string) : string :=
  unlines ["*** Begin Patch"; "*** Delete File: " ++ target; "*** End Patch"].

(** The add of the two lines [foo] and [bar]. *)
Definition addFooBarPatch : string :=
  unlines ["*** Begin Patch"; "*** Add File: f.txt"; "+foo"; "+bar";
           "*** End Patch"].

(** A hunk [-2,5] that adds the line [x]: on a file of two lines its range
    runs past the end. *)
Definition pastEndHunk : PatchHunk :=
  mkHunk (mkRange 2 5) (mkRange 2 1) [mkLine Add "x"].

(** Two replacements of different sizes: line 1 becomes two lines, and the
    second hunk, whose header says line 3, lands on index 2 of the
    sequence the first one left. *)
Definition twoHunks : list PatchHunk :=
  [mkHunk (mkRange 1 1) (mkRange 1 2)
     [mkLine Remove "a"; mkLine Add "x"; mkLine Add "y"];
   mkHunk (mkRange 3 1) (mkRange 4 1)
     [mkLine Remove "c"; mkLine Add "z"]].




(** * Further parts of the source *)

(** ** The root providers *)

(** [a || b] on strings: the first operand unless it is empty. *)
Definition orElse (a b : string) : string := if Js.truthy a then a else b.

(** [defaultGetRoot()] of [src/mcp/server.ts], in a process whose working
    directory is [cwd] and whose environment holds [MCP_ROOT_DIR] or not. *)
Definition defaultGetRoot (cwd : string) (MCP_ROOT_DIR : option string)
  : string :=
  NodePath.resolve cwd [orElse (default "" MCP_ROOT_DIR) cwd].

(** [getWorkspaceRoot()] of [src/control/server.ts], the provider the
    dashboard passes to [attachMCPToServer]: the root of the dashboard
    state, else the one of the runtime store, else the environment, else
    the working directory. *)
Definition getWorkspaceRoot (cwd : string) (stateRootDir runtimeRootDir : string)
    (MCP_ROOT_DIR : option string) : string :=
  NodePath.resolve cwd
    [orElse stateRootDir
       (orElse runtimeRootDir (orElse (default "" MCP_ROOT_DIR) cwd))].

(** A segment that [normalizeString] keeps when it meets it: not empty and
    not [.]. *)
Definition keptSegment (seg : string) : bool :=
  negb (String.eqb seg "" || String.eqb seg ".").

(** ** Words for the patch grammar *)

(** A line that the first loop of the parser takes for an operation
    header. *)
Definition isHeaderLine (line : string) : bool :=
  Js.startsWith line "*** Add File:" ||
  Js.startsWith line "*** Update File:" ||
  Js.startsWith line "*** Delete File:".

(** A decimal numeral, given by its digits from the most significant one,
    and the number it denotes. *)
Definition digitChar (d : N) : ascii := ascii_of_N (48 + d).

Fixpoint numeral (ds : list N) : string :=
  match ds with
  | [] => ""
  | d :: rest => String (digitChar d) (numeral rest)
  end.

Definition numeralValue (ds : list N) : N :=
  fold_left (fun acc d => (10 * acc + d)%N) ds 0%N.

(** A text that does not go on with a digit. *)
Definition noDigitAhead (s : string) : Prop :=
  match s with
  | EmptyString => True
  | String a _ => digitValue a = None
  end.

(** ** The dashboard server, [src/control/server.ts] *)

Module Dashboard.

(** [s.endsWith(suffix)] *)
Fixpoint endsWith (s suffix : string) : bool :=
  String.eqb s suffix ||
  match s with
  | EmptyString => false
  | String _ s' => endsWith s' suffix
  end.

(** [s.replace(/\/+$/, "")]: the run of slashes at the end goes. *)
Fixpoint stripTrailingSlashes (s : string) : string :=
  match s with
  | EmptyString => EmptyString
  | String a s' =>
      match stripTrailingSlashes s' with
      | EmptyString =>
          if Ascii.eqb a Js.slash then EmptyString else String a EmptyString
      | r => String a r
      end
  end.

(** [LM_BASE] and [LM_CHAT_URL], from the environment variable
    [LMSTUDIO_API_BASE]. *)
Definition LM_BASE (LMSTUDIO_API_BASE : option string) : string :=
  stripTrailingSlashes
    (orElse (default "" LMSTUDIO_API_BASE) "http://localhost:1234/v1").

Definition LM_CHAT_URL (LMSTUDIO_API_BASE : option string) : string :=
  LM_BASE LMSTUDIO_API_BASE ++ "/chat/completions".

(** [normalizeApiBase(input)] *)
Definition normalizeApiBase (LMSTUDIO_API_BASE : option string)
    (input : string) : string :=
  let raw := Js.trim (orElse input "") in
  if negb (Js.truthy raw) then LM_CHAT_URL LMSTUDIO_API_BASE
  else
    let noTrail := stripTrailingSlashes raw in
    if endsWith noTrail "/chat/completions" then noTrail
    else if endsWith noTrail "/v1" then noTrail ++ "/chat/completions"
    else noTrail.

Definition MAX_MODEL_CHARS : N := 32000.

(** [out.reduce((acc, m) => acc + JSON.stringify(m).length, 0)], for
    messages of any type [M] whose serialised length is [size]. *)
Definition totalChars {M : Type} (size : M -> N) (out : list M) : N :=
  fold_left (fun acc m => (acc + size m)%N) out 0%N.

(** [trimMessages(msgs)]: the loop drops the oldest message while the
    total is too large and more than one message is left. *)
Fixpoint trimMessages {M : Type} (size : M -> N) (out : list M) : list M :=
  match out with
  | [] => []
  | _ :: rest =>
      if (MAX_MODEL_CHARS <? totalChars size out)%N && (1 <? length out)%nat
      then trimMessages size rest
      else out
  end.

(** [buildBaseMessages(userMessages, currentRoot)], where [systemMessage]
    is the message built from the system prompt for the current root. *)
Definition buildBaseMessages {M : Type} (size : M -> N) (systemMessage : M)
    (userMessages : list M) : list M :=
  trimMessages size (systemMessage :: userMessages).

(** The routes of the request listener given to [createServer]; a request
    to one of the two MCP URLs is left without an answer. *)
Inductive route : Type :=
| LeftToMcp
| StateGet
| StatePost
| Models
| FsRead
| FsWrite
| DashboardPage
| Abort
| Chat
| Health
| NotFoundJson
| NotFoundText.

Definition dashboardRoute (method url : string) : route :=
  if String.eqb url "/mcp/apply_patch" || String.eqb url "/mcp/rewrite_file"
  then LeftToMcp
  else if String.eqb url "/state" && String.eqb method "GET" then StateGet
  else if String.eqb url "/state" && String.eqb method "POST" then StatePost
  else if String.eqb url "/models" && String.eqb method "GET" then Models
  else if String.eqb url "/fs/read" && String.eqb method "POST" then FsRead
  else if String.eqb url "/fs/write" && String.eqb method "POST" then FsWrite
  else if String.eqb method "GET" &&
          (String.eqb url "/" || String.eqb url "/index.html")
  then DashboardPage
  else if String.eqb method "POST" && String.eqb url "/abort" then Abort
  else if String.eqb method "POST" && String.eqb url "/chat" then Chat
  else if String.eqb method "GET" && String.eqb url "/healthz" then Health
  else if Js.startsWith url "/state" || Js.startsWith url "/models" ||
          Js.startsWith url "/chat" || Js.startsWith url "/abort" ||
          Js.startsWith url "/fs/" || Js.startsWith url "/mcp/"
  then NotFoundJson
  else NotFoundText.

End Dashboard.

(** The dispatch of the listener that [attachMCPToServer] adds to the same
    server: which of its two handlers, if any, takes the request. *)
Inductive mcpEndpoint : Type := ApplyPatchEndpoint | RewriteFileEndpoint.

Definition mcpListener (method url : string) : option mcpEndpoint :=
  if negb (String.eqb method "POST") then None
  else if String.eqb url "/mcp/apply_patch" then Some ApplyPatchEndpoint
  else if String.eqb url "/mcp/rewrite_file" then Some RewriteFileEndpoint
  else None.

(** How many of the two listeners answer a request. *)
Definition answers (method url : string) : nat :=
  (match Dashboard.dashboardRoute method url with
   | Dashboard.LeftToMcp => 0
   | _ => 1
   end +
   match mcpListener method url with
   | Some _ => 1
   | None => 0
   end)%nat.

(** * Properties *)

(** ** Strings *)

Lemma split_not_nil c s : Js.split c s <> [].
Proof.
  destruct s as [|a s]; simpl; [discriminate|].
  destruct (Ascii.eqb a c); [discriminate|].
  destruct (Js.split c s); discriminate.
Qed.

Lemma join_cons_char sep a h t :
  Js.join sep (String a h :: t) = String a (Js.join sep (h :: t)).
Proof. destruct t; reflexivity. Qed.

(** Splitting on a character and joining on it again gives the text back. *)
Lemma join_split c s : Js.join (String c "") (Js.split c s) = s.
Proof.
  induction s as [|a s IH]; simpl; [reflexivity|].
  destruct (Ascii.eqb_spec a c) as [->|Hne].
  - destruct (Js.split c s) as [|h t] eqn:E.
    + by apply split_not_nil in E.
    + simpl in *. by rewrite IH.
  - destruct (Js.split c s) as [|h t] eqn:E.
    + by apply split_not_nil in E.
    + rewrite join_cons_char. by rewrite IH.
Qed.

Lemma join_lines_split s : Js.join Js.nl (Js.split Js.LF s) = s.
Proof. apply join_split. Qed.

(** A text followed by the separator has the same pieces and one more,
    empty, piece. *)
Lemma split_snoc_sep c s :
  Js.split c (s ++ String c "") = (Js.split c s ++ [""])%list.
Proof.
  induction s as [|a s IH].
  - change (Js.split c (String c "") = ["";""]). cbn [Js.split].
    by rewrite Ascii.eqb_refl.
  - change (String a s ++ String c "") with (String a (s ++ String c "")).
    cbn [Js.split]. rewrite IH.
    destruct (Ascii.eqb a c); [reflexivity|].
    destruct (Js.split c s) as [|h t] eqn:E; [by apply split_not_nil in E|].
    reflexivity.
Qed.

Lemma replaceCRLF_two a b s :
  Js.replaceCRLF (String a (String b s)) =
  if Ascii.eqb a Js.CR && Ascii.eqb b Js.LF
  then String Js.LF (Js.replaceCRLF s)
  else String a (Js.replaceCRLF (String b s)).
Proof. reflexivity. Qed.

(** What [replaceCRLF] does, told on lines: the pieces between the LFs of
    the result are those of the text, each but the last without the CR at
    its end. *)
Lemma replaceCRLF_lines s :
  Js.split Js.LF (Js.replaceCRLF s) = lineEndsToLF (Js.split Js.LF s).
Proof.
  enough (H : Js.split Js.LF (Js.replaceCRLF s) = lineEndsToLF (Js.split Js.LF s)
              /\ forall a, Js.split Js.LF (Js.replaceCRLF (String a s)) =
                           lineEndsToLF (Js.split Js.LF (String a s)))
    by apply H.
  induction s as [|b s [IH0 IH1]].
  - split; [reflexivity|]. intros a. cbn.
    by destruct (Ascii.eqb a Js.LF).
  - split; [apply IH1|]. intros a. rewrite replaceCRLF_two.
    destruct (Ascii.eqb a Js.CR && Ascii.eqb b Js.LF) eqn:E.
    + apply andb_prop in E as [Ha Hb].
      apply Ascii.eqb_eq in Ha. apply Ascii.eqb_eq in Hb. subst a b.
      cbn [Js.split]. rewrite Ascii.eqb_refl, IH0.
      change (Ascii.eqb Js.CR Js.LF) with false. cbv iota.
      destruct (Js.split Js.LF s) as [|h t] eqn:Es;
        [by apply split_not_nil in Es|].
      reflexivity.
    + specialize (IH1 b).
      cbn [Js.split] in *. destruct (Ascii.eqb a Js.LF) eqn:Ea.
      * rewrite IH1. 
        destruct (Ascii.eqb b Js.LF).
        -- reflexivity.
        -- destruct (Js.split Js.LF s) as [|h t] eqn:Es;
             [by apply split_not_nil in Es|]. reflexivity.
      * rewrite IH1. destruct (Ascii.eqb b Js.LF) eqn:Eb.
        -- rewrite andb_true_r in E.
           destruct (Js.split Js.LF s) as [|h t] eqn:Es;
             [by apply split_not_nil in Es|].
           cbn [lineEndsToLF dropTrailingCR]. by rewrite E.
        -- destruct (Js.split Js.LF s) as [|h t] eqn:Es;
             [by apply split_not_nil in Es|].
           destruct t as [|h' t]; reflexivity.
Qed.

(** Normalising line ends and appending a newline never gives the text
    back: the first place where a CR LF pair was dropped, or else the
    length, tells them apart. *)
Lemma replaceCRLF_nl_neq s : Js.replaceCRLF s ++ Js.nl <> s.
Proof.
  induction s as [|a s IH]; [discriminate|].
  cbn [Js.replaceCRLF]. destruct s as [|b s'].
  - discriminate.
  - destruct (Ascii.eqb a Js.CR && Ascii.eqb b Js.LF) eqn:E.
    + apply andb_prop in E as [Ha _]. apply Ascii.eqb_eq in Ha. subst a.
      intros H. cbn in H. injection H as H _. unfold Js.LF, Js.CR in H.
      discriminate H.
    + intros H. cbn [String.append] in H. injection H as H. by apply IH.
Qed.

(** ** Resolved paths are normal *)

Lemma split_pieces_have_no_sep c s :
  Forall (fun seg => Js.split c seg = [seg]) (Js.split c s).
Proof.
  induction s as [|a s IH]; cbn [Js.split].
  - by constructor.
  - destruct (Ascii.eqb a c) eqn:E.
    + by constructor.
    + revert IH.
      destruct (Js.split c s) as [|h t] eqn:E'; [by apply split_not_nil in E'|].
      intros IH. inversion IH as [|? ? Hh Ht]; subst. constructor; [|exact Ht].
      cbn [Js.split]. by rewrite E, Hh.
Qed.

Lemma split_app_sep c x r :
  Js.split c x = [x] ->
  Js.split c (x ++ String c r) = x :: Js.split c r.
Proof.
  induction x as [|a x IH]; intros Hx.
  - change (Js.split c (String c r) = "" :: Js.split c r).
    cbn [Js.split]. by rewrite Ascii.eqb_refl.
  - change (String a x ++ String c r) with (String a (x ++ String c r)).
    cbn [Js.split] in *. destruct (Ascii.eqb a c); [discriminate|].
    destruct (Js.split c x) as [|h t] eqn:E; [by apply split_not_nil in E|].
    injection Hx as -> ->. by rewrite IH.
Qed.

Lemma split_join c segs :
  segs <> [] ->
  Forall (fun seg => Js.split c seg = [seg]) segs ->
  Js.split c (Js.join (String c "") segs) = segs.
Proof.
  intros Hne Hall. induction Hall as [|x rest Hx Hrest IH]; [done|].
  destruct rest as [|y rest]; [exact Hx|].
  change (Js.join (String c "") (x :: y :: rest))
    with (x ++ String c (Js.join (String c "") (y :: rest))).
  rewrite (split_app_sep _ _ _ Hx). by rewrite IH.
Qed.

Lemma normalizeSegments_clean b segs : forall kept,
  Forall (fun seg => Js.split Js.slash seg = [seg]) segs ->
  Forall cleanSegment kept ->
  Forall cleanSegment (NodePath.normalizeSegments b kept segs) \/ b = true.
Proof.
  destruct b; [by right|].
  induction segs as [|seg rest IH]; intros kept Hsegs Hkept; cbn.
  - left. by apply Forall_rev.
  - inversion Hsegs as [|? ? Hseg Hrest]; subst.
    destruct (String.eqb_spec seg "") as [->|H1]; [by apply IH|].
    destruct (String.eqb_spec seg ".") as [->|H2]; [by apply IH|].
    cbn. destruct (String.eqb_spec seg "..") as [->|H3].
    + destruct kept as [|top kept']; [by apply IH|].
      inversion Hkept; subst.
      destruct (String.eqb top ".."); by apply IH.
    + apply IH; [exact Hrest|]. by constructor.
Qed.

Lemma normalizeSegments_of_clean b segs : forall kept,
  Forall cleanSegment segs ->
  NodePath.normalizeSegments b kept segs = (rev kept ++ segs)%list.
Proof.
  induction segs as [|seg rest IH]; intros kept Hall; cbn.
  - by rewrite app_nil_r.
  - inversion Hall as [|? ? (H1 & H2 & H3 & _) Hrest]; subst.
    destruct (String.eqb_spec seg ""); [done|].
    destruct (String.eqb_spec seg "."); [done|]. cbn.
    destruct (String.eqb_spec seg ".."); [done|].
    rewrite IH by done. cbn. by rewrite <- app_assoc.
Qed.

Lemma endsWithSlash_app s t :
  t <> "" -> NodePath.endsWithSlash (s ++ t) = NodePath.endsWithSlash t.
Proof.
  intros Ht. induction s as [|a s IH]; [reflexivity|].
  change (String a s ++ t) with (String a (s ++ t)).
  cbn [NodePath.endsWithSlash].
  destruct (s ++ t) as [|b u] eqn:E; [|exact IH].
  destruct s; [by subst | discriminate].
Qed.

Lemma endsWithSlash_segment seg :
  seg <> "" -> Js.split Js.slash seg = [seg] ->
  NodePath.endsWithSlash seg = false.
Proof.
  induction seg as [|a seg IH]; [done|]. intros _ Hsplit.
  cbn [Js.split] in Hsplit. destruct (Ascii.eqb a Js.slash) eqn:E; [discriminate|].
  destruct (Js.split Js.slash seg) as [|h t] eqn:E'; [by apply split_not_nil in E'|].
  injection Hsplit as -> ->.
  destruct seg as [|b seg]; [exact E|].
  cbn [NodePath.endsWithSlash]. by apply IH.
Qed.

Lemma join_clean_truthy segs :
  segs <> [] -> Forall cleanSegment segs -> Js.truthy (Js.join "/" segs) = true.
Proof.
  intros Hne Hall. destruct Hall as [|x rest (Hx & _) _]; [done|].
  destruct x as [|a x]; [done|]. by destruct rest.
Qed.

Lemma endsWithSlash_join segs :
  segs <> [] -> Forall cleanSegment segs ->
  NodePath.endsWithSlash (Js.join "/" segs) = false.
Proof.
  intros Hne Hall. induction Hall as [|x rest (Hx & _ & _ & Hs) Hrest IH]; [done|].
  destruct rest as [|y rest]; [by apply endsWithSlash_segment|].
  change (Js.join "/" (x :: y :: rest))
    with (x ++ "/" ++ Js.join "/" (y :: rest)).
  rewrite endsWithSlash_app by done.
  change ("/" ++ Js.join "/" (y :: rest))
    with (String Js.slash (Js.join "/" (y :: rest))).
  pose proof (join_clean_truthy (y :: rest) ltac:(done) Hrest) as Ht.
  cbn [NodePath.endsWithSlash].
  destruct (Js.join "/" (y :: rest)); [done|]. by apply IH.
Qed.

(** An absolute path made of clean segments is its own normal form. *)
Lemma normalize_of_clean segs :
  Forall cleanSegment segs ->
  NodePath.normalize ("/" ++ Js.join "/" segs) = "/" ++ Js.join "/" segs.
Proof.
  intros Hall. destruct segs as [|x rest]; [reflexivity|].
  set (segs := x :: rest) in *.
  assert (Hne : segs <> []) by done. clearbody segs.
  unfold NodePath.normalize.
  change ("/" ++ Js.join "/" segs) with (String Js.slash (Js.join "/" segs)).
  cbn [Js.truthy negb]. cbv iota.
  assert (Habs : NodePath.isAbsolute (String Js.slash (Js.join "/" segs)) = true)
    by (by destruct (Js.join "/" segs)).
  rewrite Habs. cbn [negb].
  assert (Hp : NodePath.normalizeString (String Js.slash (Js.join "/" segs)) false
               = Js.join "/" segs).
  { unfold NodePath.normalizeString.
    change (Js.split Js.slash (String Js.slash (Js.join "/" segs)))
      with ("" :: Js.split Js.slash (Js.join (String Js.slash "") segs)).
    rewrite (split_join Js.slash segs Hne).
    - change (NodePath.normalizeSegments false [] ("" :: segs))
        with (NodePath.normalizeSegments false [] segs).
      by rewrite normalizeSegments_of_clean.
    - eapply Forall_impl; [exact Hall|]. by intros seg (_ & _ & _ & H). }
  rewrite Hp, (join_clean_truthy _ Hne Hall). cbn [negb]. cbv iota.
  assert (Hend : NodePath.endsWithSlash (String Js.slash (Js.join "/" segs)) = false).
  { pose proof (join_clean_truthy _ Hne Hall) as Ht.
    cbn [NodePath.endsWithSlash].
    destruct (Js.join "/" segs) eqn:E; [done|].
    rewrite <- E. by apply endsWithSlash_join. }
  by rewrite Hend.
Qed.

Lemma resolveLoop_absolute cwd revArgs : forall resolved,
  NodePath.isAbsolute cwd = true ->
  snd (NodePath.resolveLoop cwd revArgs resolved) = true.
Proof.
  induction revArgs as [|p rest IH]; intros resolved Hcwd; cbn.
  - destruct cwd; [done|]. exact Hcwd.
  - destruct (Js.truthy p); [|by apply IH].
    destruct (NodePath.isAbsolute p); [reflexivity | by apply IH].
Qed.

(** In a process with an absolute working directory, [path.resolve] gives
    a path on which [path.normalize] has nothing left to do. *)
Lemma normalize_resolve cwd args :
  NodePath.isAbsolute cwd = true ->
  NodePath.normalize (NodePath.resolve cwd args) = NodePath.resolve cwd args.
Proof.
  intros Hcwd. unfold NodePath.resolve.
  pose proof (resolveLoop_absolute cwd (rev args) "" Hcwd) as Habs.
  destruct (NodePath.resolveLoop cwd (rev args) "") as [resolvedPath b].
  cbn in Habs. subst b. cbn [negb]. cbv iota.
  unfold NodePath.normalizeString. apply normalize_of_clean.
  destruct (normalizeSegments_clean false (Js.split Js.slash resolvedPath) [])
    as [H|H]; [apply split_pieces_have_no_sep | constructor | exact H | done].
Qed.

(** So, for an absolute working directory, the verdict of [withinRoot] is
    the plain string-prefix test between the lower-cased resolved root and
    the lower-cased resolved path. *)
Lemma withinRoot_is_prefix_test cwd root relPath :
  NodePath.isAbsolute cwd = true ->
  let ROOT := NodePath.resolve cwd [root] in
  let rel := if Js.truthy relPath && Js.truthy (Js.trim relPath)
             then relPath else "." in
  let abs := NodePath.resolve cwd [ROOT; rel] in
  withinRoot cwd root relPath =
    if String.prefix (Js.toLowerCase ROOT) (Js.toLowerCase abs)
    then Ok abs else Throw (SecurityError relPath ROOT).
Proof.
  intros Hcwd ROOT rel abs. unfold withinRoot. fold ROOT. fold rel. fold abs.
  unfold ROOT at 1, abs at 1. rewrite !normalize_resolve by done.
  fold ROOT. fold abs. unfold Js.startsWith.
  by destruct (String.prefix _ _).
Qed.

Lemma string_app_assoc (a b c : string) : (a ++ b) ++ c = a ++ (b ++ c).
Proof.
  induction a as [|x a IH]; [reflexivity|].
  change (String x ((a ++ b) ++ c) = String x (a ++ (b ++ c))).
  by rewrite IH.
Qed.

Lemma string_length_app (a b : string) :
  String.length (a ++ b) = String.length a + String.length b.
Proof.
  induction a as [|x a IH]; [reflexivity|].
  change (String x a ++ b) with (String x (a ++ b)). cbn [String.length].
  by rewrite IH.
Qed.

Lemma join_app sep (A B : list string) :
  A <> [] -> B <> [] ->
  Js.join sep (A ++ B) = Js.join sep A ++ sep ++ Js.join sep B.
Proof.
  intros HA HB. induction A as [|x A IH]; [done|].
  destruct A as [|y A].
  - destruct B; [done | reflexivity].
  - change (Js.join sep ((x :: y :: A) ++ B))
      with (x ++ sep ++ Js.join sep ((y :: A) ++ B)).
    rewrite IH by done.
    change (Js.join sep (x :: y :: A)) with (x ++ sep ++ Js.join sep (y :: A)).
    by rewrite !string_app_assoc.
Qed.

Lemma clean_no_sep segs :
  Forall cleanSegment segs ->
  Forall (fun seg => Js.split Js.slash seg = [seg]) segs.
Proof.
  intros Hall. eapply Forall_impl; [exact Hall|]. by intros seg (_ & _ & _ & H).
Qed.

Lemma join_snoc_longer (A : list string) (last : string) :
  last <> "" ->
  String.length (Js.join "/" A) < String.length (Js.join "/" (A ++ [last])).
Proof.
  intros Hlast. destruct A as [|x A].
  - cbn. destruct last; [done | cbn; lia].
  - rewrite join_app by done. rewrite !string_length_app. cbn. lia.
Qed.

Lemma isAbsolute_slash s : NodePath.isAbsolute ("/" ++ s) = true.
Proof. by destruct s. Qed.

(** The form of every resolved path in a process with an absolute working
    directory. *)
Lemma resolve_form cwd args :
  NodePath.isAbsolute cwd = true ->
  exists segs, Forall cleanSegment segs /\
               NodePath.resolve cwd args = "/" ++ Js.join "/" segs.
Proof.
  intros Hcwd. unfold NodePath.resolve.
  pose proof (resolveLoop_absolute cwd (rev args) "" Hcwd) as Habs.
  destruct (NodePath.resolveLoop cwd (rev args) "") as [resolvedPath b].
  cbn in Habs. subst b. cbn [negb]. cbv iota.
  unfold NodePath.normalizeString. eexists. split; [|reflexivity].
  destruct (normalizeSegments_clean false (Js.split Js.slash resolvedPath) [])
    as [H|H]; [apply split_pieces_have_no_sep | constructor | exact H | done].
Qed.

(** The characters of a text, for the backward scan of [dirname]. *)
Lemma list_ascii_of_string_app (a b : string) :
  list_ascii_of_string (a ++ b) =
  (list_ascii_of_string a ++ list_ascii_of_string b)%list.
Proof.
  induction a as [|x a IH]; [reflexivity|].
  change (String x a ++ b) with (String x (a ++ b)).
  cbn [list_ascii_of_string]. by rewrite IH.
Qed.

Lemma no_sep_chars c s :
  Js.split c s = [s] ->
  Forall (fun a => Ascii.eqb a c = false) (list_ascii_of_string s).
Proof.
  induction s as [|a s IH]; intros H; [constructor|].
  cbn [Js.split] in H. destruct (Ascii.eqb a c) eqn:E; [discriminate|].
  destruct (Js.split c s) as [|h t] eqn:Es; [by apply split_not_nil in Es|].
  injection H as -> ->. constructor; [exact E | by apply IH].
Qed.

Lemma dropWhile_all {A : Type} (f : A -> bool) (l r : list A) :
  Forall (fun x => f x = true) l ->
  NodePath.dropWhile f (l ++ r)%list = NodePath.dropWhile f r.
Proof.
  induction 1 as [|x l Hx _ IH]; [reflexivity|]. simpl. by rewrite Hx.
Qed.

Lemma dropWhile_none {A : Type} (f : A -> bool) (l r : list A) :
  l <> [] ->
  Forall (fun x => f x = false) l ->
  NodePath.dropWhile f (l ++ r)%list = (l ++ r)%list.
Proof.
  intros Hne Hall. destruct Hall as [|x l Hx _]; [done|]. simpl. by rewrite Hx.
Qed.

(** The parent of a path of clean segments is the path of all segments but
    the last. *)
Lemma dirname_snoc init last :
  Forall cleanSegment (init ++ [last])%list ->
  NodePath.dirname ("/" ++ Js.join "/" (init ++ [last])) =
  "/" ++ Js.join "/" init.
Proof.
  intros Hall. apply Forall_app in Hall as [Hinit Hlast].
  apply Forall_singleton in Hlast as (Hne & _ & _ & Hsplit).
  apply no_sep_chars in Hsplit.
  assert (Hchars : rev (list_ascii_of_string last) <> []).
  { destruct last as [|a l]; [done|]. cbn [list_ascii_of_string rev].
    by destruct (rev (list_ascii_of_string l)). }
  apply Forall_rev in Hsplit.
  set (chars := rev (list_ascii_of_string last)) in *.
  change ("/" ++ Js.join "/" (init ++ [last]))
    with (String Js.slash (Js.join "/" (init ++ [last]))).
  unfold NodePath.dirname. rewrite Ascii.eqb_refl.
  destruct init as [|x init].
  - change (Js.join "/" ([] ++ [last])) with last. fold chars.
    rewrite <- (app_nil_r chars).
    rewrite dropWhile_none by done.
    rewrite dropWhile_all; [reflexivity|].
    eapply Forall_impl; [exact Hsplit|]. intros a Ha. simpl. by rewrite Ha.
  - rewrite join_app by done.
    change (Js.join "/" [last]) with last.
    rewrite !list_ascii_of_string_app, !rev_app_distr. fold chars.
    rewrite <- app_assoc.
    rewrite dropWhile_none by done.
    rewrite dropWhile_all.
    2:{ eapply Forall_impl; [exact Hsplit|]. intros a Ha. simpl. by rewrite Ha. }
    change (rev (list_ascii_of_string "/")) with [Js.slash].
    cbn [app NodePath.dropWhile]. rewrite Ascii.eqb_refl. cbn [negb].
    pose proof (join_clean_truthy (x :: init) ltac:(done) Hinit) as Ht.
    destruct (Js.join "/" (x :: init)) as [|j J] eqn:EJ; [discriminate|].
    rewrite bool_decide_false.
    2:{ cbn [list_ascii_of_string rev].
        by destruct (rev (list_ascii_of_string J)). }
    cbn [andb]. rewrite rev_involutive, string_of_list_ascii_of_string.
    reflexivity.
Qed.

(** The directories on the way to a path of clean segments. *)
Lemma pathPrefixes_last segs : forall base,
  segs <> [] ->
  Forall cleanSegment segs ->
  base ++ "/" ++ Js.join "/" segs ∈ NodeFs.pathPrefixes base segs.
Proof.
  induction segs as [|x rest IH]; intros base Hne Hall; [done|].
  inversion Hall as [|? ? (Hx & _) Hrest]; subst.
  cbn [NodeFs.pathPrefixes]. destruct x as [|a x]; [done|]. cbn [Js.truthy].
  destruct rest as [|y rest].
  - apply list_elem_of_here.
  - apply list_elem_of_further.
    change (Js.join "/" (String a x :: y :: rest))
      with (String a x ++ "/" ++ Js.join "/" (y :: rest)).
    specialize (IH (base ++ "/" ++ String a x) ltac:(done) Hrest).
    by rewrite !string_app_assoc in *.
Qed.

Lemma pathPrefixes_length segs : forall base d,
  Forall cleanSegment segs ->
  d ∈ NodeFs.pathPrefixes base segs ->
  String.length d <= String.length base + 1 + String.length (Js.join "/" segs).
Proof.
  induction segs as [|x rest IH]; intros base d Hall Hd.
  - by apply elem_of_nil in Hd.
  - inversion Hall as [|? ? (Hx & _) Hrest]; subst.
    cbn [NodeFs.pathPrefixes] in Hd. destruct x as [|a x]; [done|].
    cbn [Js.truthy] in Hd. apply elem_of_cons in Hd as [->|Hd].
    + destruct rest as [|y rest].
      * rewrite !string_length_app. cbn. lia.
      * change (Js.join "/" (String a x :: y :: rest))
          with (String a x ++ "/" ++ Js.join "/" (y :: rest)).
        rewrite !string_length_app. cbn. lia.
    + destruct rest as [|y rest]; [by apply elem_of_nil in Hd|].
      apply IH in Hd; [|done].
      change (Js.join "/" (String a x :: y :: rest))
        with (String a x ++ "/" ++ Js.join "/" (y :: rest)).
      rewrite !string_length_app in *. cbn in *. lia.
Qed.

(** The parents of a path of clean segments: the prefixes of all segments
    but the last; the path is none of them, and its directory is the last
    of them or the root. *)
Lemma parentDirs_snoc init last :
  Forall cleanSegment (init ++ [last])%list ->
  parentDirs ("/" ++ Js.join "/" (init ++ [last])) =
  NodeFs.pathPrefixes "" init.
Proof.
  intros Hall. unfold parentDirs. rewrite dirname_snoc by done.
  apply Forall_app in Hall as [Hinit _].
  change ("/" ++ Js.join "/" init) with (String Js.slash (Js.join "/" init)).
  cbn [Js.split]. rewrite Ascii.eqb_refl.
  destruct init as [|x init]; [reflexivity|].
  rewrite split_join; [reflexivity | done | by apply clean_no_sep].
Qed.

Lemma path_not_own_parent init last :
  Forall cleanSegment (init ++ [last])%list ->
  "/" ++ Js.join "/" (init ++ [last]) ∉
    parentDirs ("/" ++ Js.join "/" (init ++ [last])).
Proof.
  intros Hall Hin. rewrite parentDirs_snoc in Hin by done.
  pose proof Hall as Hall'.
  apply Forall_app in Hall as [Hinit Hlast].
  apply Forall_singleton in Hlast as (Hne & _).
  apply pathPrefixes_length in Hin; [|done].
  pose proof (join_snoc_longer init last Hne) as Hlt.
  rewrite string_length_app in Hin. cbn in Hin. lia.
Qed.

Lemma dirname_among_parents init last :
  Forall cleanSegment (init ++ [last])%list ->
  let abs := "/" ++ Js.join "/" (init ++ [last]) in
  NodePath.dirname abs = "/" \/ NodePath.dirname abs ∈ parentDirs abs.
Proof.
  intros Hall abs. subst abs. rewrite parentDirs_snoc, dirname_snoc by done.
  apply Forall_app in Hall as [Hinit _].
  destruct init as [|x init]; [by left | right].
  by apply (pathPrefixes_last (x :: init) "").
Qed.

(** ** Containment *)

(** C1.  The containment promise (a resolved path is the root or lies below
    it, or the call fails) does not hold of [withinRoot]: with root [/a/b]
    the relative path [../bc/evil] resolves to the sibling [/a/bc/evil],
    which is neither the root nor the root followed by a separator, and the
    call returns it, because the check compares strings, not directories. *)
Theorem withinRoot_accepts_sibling_prefix :
  forall cwd : string,
    withinRoot cwd "/a/b" "../bc/evil" = Ok "/a/bc/evil" /\
    underRoot "/a/b" "/a/bc/evil" = false.
Proof. intros cwd. split; reflexivity. Qed.

(** The other instance of the claim does hold: below [/ws], the path
    [../outside] is refused. *)
Lemma withinRoot_rejects_outside :
  forall cwd : string,
    withinRoot cwd "/ws" "../outside" = Throw (SecurityError "../outside" "/ws").
Proof. intros cwd. reflexivity. Qed.

(** C10.  The verdict of [withinRoot] is the prefix test on the lower-cased
    normalised root and candidate, whatever the platform; so with root
    [/A/B] the path [../../a/b/x], which resolves to [/a/b/x] and differs
    from the root in letter case only, is accepted although it is not below
    the root. *)
Theorem withinRoot_folds_case :
  (forall cwd root relPath abs : string,
      let ROOT := NodePath.resolve cwd [root] in
      let rel := if Js.truthy relPath && Js.truthy (Js.trim relPath)
                 then relPath else "." in
      withinRoot cwd root relPath = Ok abs <->
      abs = NodePath.resolve cwd [ROOT; rel] /\
      String.prefix (Js.toLowerCase (NodePath.normalize ROOT))
                    (Js.toLowerCase (NodePath.normalize abs)) = true) /\
  (forall cwd : string,
      withinRoot cwd "/A/B" "../../a/b/x" = Ok "/a/b/x" /\
      Js.startsWith "/a/b/x" "/A/B" = false /\
      underRoot "/A/B" "/a/b/x" = false).
Proof.
  split.
  - intros cwd root relPath abs ROOT rel. unfold withinRoot.
    fold ROOT. fold rel. unfold Js.startsWith.
    destruct (String.prefix _ _) eqn:E; simpl; split.
    + intros [= <-]. by split.
    + intros [-> _]. reflexivity.
    + discriminate.
    + intros [-> H]. rewrite E in H. discriminate.
  - intros cwd. repeat split; reflexivity.
Qed.

(** ** The end-to-end scenario *)

(** C2.  In the scenario of the specification the request succeeds with
    [{ok: true, path: "a.txt", op: "update"}], but the file is left with
    the lines [one], [TWO], [three] followed by an empty line: the content
    ends in two newlines, not in the single one the scenario states. *)
Theorem scenario_leaves_extra_newline :
  forall cwd : string,
    apply_patch cwd "/ws" (Some scenarioPatch) scenarioFs =
      (Success "a.txt" "update",
       NodeFs.mkState
         (<["/ws/a.txt" := NodeFs.File (unlines ["one"; "TWO"; "three"; ""; ""])]>
            (NodeFs.nodes scenarioFs))
         ∅) /\
    unlines ["one"; "TWO"; "three"; ""; ""] <> unlines ["one"; "TWO"; "three"; ""].
Proof. intros cwd. split; [by vm_compute | discriminate]. Qed.

(** When the patch text ends with a newline after [*** End Patch], the
    empty last line is read as a context line of the hunk, and a blank line
    also appears after [TWO]. *)
Lemma scenario_with_final_newline :
  forall cwd : string,
    apply_patch cwd "/ws" (Some (scenarioPatch ++ Js.nl)) scenarioFs =
      (Success "a.txt" "update",
       NodeFs.mkState
         (<["/ws/a.txt" :=
              NodeFs.File (unlines ["one"; "TWO"; ""; "three"; ""; ""])]>
            (NodeFs.nodes scenarioFs))
         ∅).
Proof. intros cwd. by vm_compute. Qed.

(** ** Requests that carry a patch *)

(** A patch that parses is answered from what the applier does. *)
Lemma apply_patch_parsed cwd root raw p st :
  parseSimplifiedPatch raw = Ok p ->
  apply_patch cwd root (Some raw) st =
    respond (path p) (opName (op p)) (applyParsedPatch cwd root p st).
Proof.
  intros Hp. unfold apply_patch, respond. simpl. rewrite Hp.
  by destruct (applyParsedPatch cwd root p st) as [[[]|e] st'].
Qed.

Lemma applyParsedPatch_delete cwd root p abs st :
  op p = OpDelete ->
  withinRoot cwd root (path p) = Ok abs ->
  applyParsedPatch cwd root p st =
    NodeFs.tryCatch (NodeFs.unlink abs) (fun _ => NodeFs.ret tt) st.
Proof.
  intros Hop Habs. unfold applyParsedPatch, NodeFs.bindIo, NodeFs.lift.
  by rewrite Habs, Hop.
Qed.

Lemma applyParsedPatch_update cwd root p abs original st :
  op p = OpUpdate ->
  withinRoot cwd root (path p) = Ok abs ->
  NodeFs.lookupNode st abs = Some (NodeFs.File original) ->
  applyParsedPatch cwd root p st =
    NodeFs.writeFile abs
      (Js.join Js.nl
         (applyHunks (Js.split Js.LF (Js.replaceCRLF original)) (hunks p))
       ++ Js.nl) st.
Proof.
  intros Hop Habs Hfile.
  unfold applyParsedPatch, NodeFs.bindIo, NodeFs.lift.
  rewrite Habs, Hop. unfold NodeFs.tryCatch, NodeFs.readFile.
  by rewrite Hfile.
Qed.

(** C9.  An update of an existing, writable file writes the lines of the
    CR LF-normalised original, spliced by the hunks, joined with newline and
    followed by one more newline.  With no hunk at all the file is therefore
    not left alone: it becomes the normalised original with a newline
    appended, that is with one more, empty, line, and this is never the
    original.  The normalisation is the conversion of CR LF line ends to LF:
    the lines written are the pieces between the LFs of the original, each
    but the last without the CR at its end, and the empty line. *)
Theorem update_without_hunks_appends_newline
    (cwd root raw : string) (p : ParsedPatch) (abs original : string)
    (st : NodeFs.state) :
  parseSimplifiedPatch raw = Ok p ->
  op p = OpUpdate ->
  withinRoot cwd root (path p) = Ok abs ->
  NodeFs.lookupNode st abs = Some (NodeFs.File original) ->
  NodeFs.writable st abs = true ->
  let written :=
    Js.join Js.nl
      (applyHunks (Js.split Js.LF (Js.replaceCRLF original)) (hunks p))
    ++ Js.nl in
  apply_patch cwd root (Some raw) st =
    (Success (path p) "update",
     NodeFs.mkState (<[abs := NodeFs.File written]> (NodeFs.nodes st))
                    (NodeFs.readOnly st)) /\
  (hunks p = [] ->
   written = Js.replaceCRLF original ++ Js.nl /\
   Js.split Js.LF written =
     (Js.split Js.LF (Js.replaceCRLF original) ++ [""])%list /\
   written <> original /\
   Js.split Js.LF written =
     (lineEndsToLF (Js.split Js.LF original) ++ [""])%list /\
   written =
     Js.join Js.nl (lineEndsToLF (Js.split Js.LF original)) ++ Js.nl).
Proof.
  intros Hp Hop Habs Hfile Hw written. split.
  - rewrite (apply_patch_parsed _ _ _ _ _ Hp).
    rewrite (applyParsedPatch_update _ _ _ _ _ _ Hop Habs Hfile).
    unfold NodeFs.writeFile. rewrite Hfile, Hw, Hop. reflexivity.
  - intros Hnil. subst written. rewrite Hnil. simpl applyHunks.
    rewrite join_lines_split.
    split; [reflexivity|]. split; [apply split_snoc_sep|].
    split; [apply replaceCRLF_nl_neq|].
    split.
    + change (Js.replaceCRLF original ++ Js.nl)
        with (Js.replaceCRLF original ++ String Js.LF "").
      by rewrite split_snoc_sep, replaceCRLF_lines.
    + by rewrite <- replaceCRLF_lines, join_lines_split.
Qed.

Lemma update_without_hunks_witness :
  apply_patch "/" "/ws" (Some emptyUpdatePatch) scenarioFs =
    (Success "a.txt" "update",
     NodeFs.mkState
       (<["/ws/a.txt" := NodeFs.File (unlines ["one"; "two"; "three"; ""; ""])]>
          (NodeFs.nodes scenarioFs))
       ∅) /\
  unlines ["one"; "two"; "three"; ""; ""] <> unlines ["one"; "two"; "three"; ""] /\
  apply_patch "/" "/ws" (Some emptyUpdatePatch) crlfFs =
    (Success "a.txt" "update",
     NodeFs.mkState
       (<["/ws/a.txt" := NodeFs.File (unlines ["one"; "two"; ""; ""])]>
          (NodeFs.nodes crlfFs))
       ∅) /\
  Js.split Js.LF (unlines ["one"; "two"; ""; ""]) = ["one"; "two"; ""; ""].
Proof.
  destruct (update_without_hunks_appends_newline "/" "/ws" emptyUpdatePatch
              (mkPatch OpUpdate "a.txt" None []) "/ws/a.txt"
              (unlines ["one"; "two"; "three"; ""]) scenarioFs
              eq_refl eq_refl eq_refl eq_refl eq_refl) as [Hresp Hfile].
  destruct (update_without_hunks_appends_newline "/" "/ws" emptyUpdatePatch
              (mkPatch OpUpdate "a.txt" None []) "/ws/a.txt"
              (Js.join (String Js.CR Js.nl) ["one"; "two"; ""]) crlfFs
              eq_refl eq_refl eq_refl eq_refl eq_refl) as [Hresp' Hfile'].
  split; [exact Hresp|].
  split; [exact (proj1 (proj2 (proj2 (Hfile eq_refl))))|].
  split; [exact Hresp'|].
  exact (proj1 (proj2 (proj2 (proj2 (Hfile' eq_refl))))).
Defined.

(** C6.  A delete patch whose target resolves below the root and does not
    exist is answered with [{ok: true, path, op: "delete"}], and the file
    system is left as it was. *)
Theorem delete_of_missing_file_succeeds
    (cwd root raw : string) (p : ParsedPatch) (abs : string)
    (st : NodeFs.state) :
  parseSimplifiedPatch raw = Ok p ->
  op p = OpDelete ->
  withinRoot cwd root (path p) = Ok abs ->
  NodeFs.lookupNode st abs = None ->
  apply_patch cwd root (Some raw) st = (Success (path p) "delete", st).
Proof.
  intros Hp Hop Habs Hnone.
  rewrite (apply_patch_parsed _ _ _ _ _ Hp).
  rewrite (applyParsedPatch_delete _ _ _ _ _ Hop Habs).
  unfold NodeFs.tryCatch, NodeFs.unlink. rewrite Hnone, Hop. reflexivity.
Qed.

Lemma delete_of_missing_file_witness :
  NodeFs.lookupNode scenarioFs "/ws/gone.txt" = None /\
  apply_patch "/" "/ws" (Some (deletePatch "gone.txt")) scenarioFs =
    (Success "gone.txt" "delete", scenarioFs).
Proof.
  split; [reflexivity|].
  apply (delete_of_missing_file_succeeds "/" "/ws" (deletePatch "gone.txt")
           (mkPatch OpDelete "gone.txt" None []) "/ws/gone.txt" scenarioFs);
    reflexivity.
Defined.

(** C7, as stated, fails: in a write-protected directory [unlink] fails
    with EACCES, the file stays, and the request still answers
    [{ok: true, path: "a.txt", op: "delete"}] instead of an error. *)
Lemma delete_hides_permission_denied :
  NodeFs.unlink "/ws/a.txt" protectedFs =
    (Throw (IoError "EACCES" "unlink" "/ws/a.txt"), protectedFs) /\
  apply_patch "/" "/ws" (Some (deletePatch "a.txt")) protectedFs =
    (Success "a.txt" "delete", protectedFs) /\
  ~ (exists msg st',
        apply_patch "/" "/ws" (Some (deletePatch "a.txt")) protectedFs =
          (Failure msg, st')).
Proof.
  assert (H : apply_patch "/" "/ws" (Some (deletePatch "a.txt")) protectedFs =
              (Success "a.txt" "delete", protectedFs)) by by vm_compute.
  split; [by vm_compute|]. split; [exact H|].
  intros (msg & st' & H'). rewrite H in H'. discriminate.
Qed.

(** C7, amended.  Whatever the reason [unlink] fails for, a delete patch
    whose target resolves below the root is answered with
    [{ok: true, path, op: "delete"}]: the failure is caught and dropped, and
    the file system is the one [unlink] left. *)
Theorem delete_swallows_unlink_failure
    (cwd root raw : string) (p : ParsedPatch) (abs : string) (e : error)
    (st st' : NodeFs.state) :
  parseSimplifiedPatch raw = Ok p ->
  op p = OpDelete ->
  withinRoot cwd root (path p) = Ok abs ->
  NodeFs.unlink abs st = (Throw e, st') ->
  apply_patch cwd root (Some raw) st = (Success (path p) "delete", st').
Proof.
  intros Hp Hop Habs Hfail.
  rewrite (apply_patch_parsed _ _ _ _ _ Hp).
  rewrite (applyParsedPatch_delete _ _ _ _ _ Hop Habs).
  unfold NodeFs.tryCatch. rewrite Hfail, Hop. reflexivity.
Qed.

Lemma delete_swallows_unlink_failure_witness :
  apply_patch "/" "/ws" (Some (deletePatch "a.txt")) protectedFs =
    (Success "a.txt" "delete", protectedFs).
Proof.
  apply (delete_swallows_unlink_failure "/" "/ws" (deletePatch "a.txt")
           (mkPatch OpDelete "a.txt" None []) "/ws/a.txt"
           (IoError "EACCES" "unlink" "/ws/a.txt") protectedFs protectedFs);
    reflexivity.
Defined.

(** C5.  When the first line of the patch text does not contain
    [*** Begin Patch], the request is answered with
    [{error: "Patch missing *** Begin Patch"}] and the file system is not
    touched. *)
Theorem missing_begin_marker_is_rejected
    (cwd root : string) (patch : option string) (st : NodeFs.state) :
  Js.includes (hd "" (patchLines (default "" patch))) "*** Begin Patch" = false ->
  apply_patch cwd root patch st = (Failure "Patch missing *** Begin Patch", st).
Proof.
  intros H. unfold apply_patch, parseSimplifiedPatch. rewrite H. reflexivity.
Qed.

Lemma missing_begin_marker_witness :
  apply_patch "/" "/ws" (Some (unlines ["*** Delete File: a.txt"; "*** End Patch"]))
    scenarioFs = (Failure "Patch missing *** Begin Patch", scenarioFs) /\
  apply_patch "/" "/ws" None scenarioFs =
    (Failure "Patch missing *** Begin Patch", scenarioFs).
Proof.
  split; apply missing_begin_marker_is_rejected; reflexivity.
Defined.

(** ** The file system operations *)

Lemma lookupNode_insert_eq st p n ro :
  p <> "/" ->
  NodeFs.lookupNode (NodeFs.mkState (<[p := n]> (NodeFs.nodes st)) ro) p = Some n.
Proof.
  intros Hp. unfold NodeFs.lookupNode. simpl.
  destruct (String.eqb_spec p "/"); [done|]. by rewrite lookup_insert_eq.
Qed.

Lemma lookupNode_insert_ne st p q n ro :
  p <> q ->
  NodeFs.lookupNode (NodeFs.mkState (<[p := n]> (NodeFs.nodes st)) ro) q =
  NodeFs.lookupNode st q.
Proof.
  intros Hpq. unfold NodeFs.lookupNode. simpl.
  destruct (String.eqb q "/"); [done|]. by rewrite lookup_insert_ne.
Qed.

Lemma lookupNode_root st : NodeFs.lookupNode st "/" = Some NodeFs.Dir.
Proof. reflexivity. Qed.

(** A write that succeeds leaves the file with exactly the content given,
    touches no other path and changes no permission. *)
Lemma writeFile_ok p c st st' :
  NodeFs.writeFile p c st = (Ok tt, st') ->
  st' = NodeFs.mkState (<[p := NodeFs.File c]> (NodeFs.nodes st)) (NodeFs.readOnly st) /\
  NodeFs.lookupNode st' p = Some (NodeFs.File c) /\
  NodeFs.lookupNode st p <> Some NodeFs.Dir.
Proof.
  unfold NodeFs.writeFile. intros H.
  assert (Hp : NodeFs.lookupNode st p <> Some NodeFs.Dir).
  { intros E. rewrite E in H. discriminate. }
  assert (Hne : p <> "/").
  { intros ->. by apply Hp. }
  assert (Hst : st' = NodeFs.mkState (<[p := NodeFs.File c]> (NodeFs.nodes st))
                                    (NodeFs.readOnly st)).
  { destruct (NodeFs.lookupNode st p) as [[old|]|].
    - destruct (NodeFs.writable st p); by inversion H.
    - discriminate.
    - destruct (NodeFs.lookupNode st (NodePath.dirname p)) as [[?|]|];
        try discriminate.
      destruct (NodeFs.writable st (NodePath.dirname p)); by inversion H. }
  split; [exact Hst|]. split; [|exact Hp].
  subst st'. by apply lookupNode_insert_eq.
Qed.

(** A recursive [mkdir] that succeeds leaves every directory on the way in
    place, and keeps what was a directory before. *)
Lemma mkdirEach_ok target dirs : forall st st',
  NodeFs.mkdirEach target dirs st = (Ok tt, st') ->
  Forall (fun d => NodeFs.lookupNode st' d = Some NodeFs.Dir) dirs /\
  (forall q, NodeFs.lookupNode st q = Some NodeFs.Dir ->
             NodeFs.lookupNode st' q = Some NodeFs.Dir).
Proof.
  induction dirs as [|d rest IH]; intros st st' H; simpl in H.
  - inversion H; subst. split; [constructor | auto].
  - destruct (NodeFs.lookupNode st d) as [[c|]|] eqn:E.
    + discriminate.
    + destruct (IH _ _ H) as [Hall Hkeep]. split; [|exact Hkeep].
      constructor; [by apply Hkeep | exact Hall].
    + destruct (NodeFs.writable st (NodePath.dirname d)); [|discriminate].
      destruct (IH _ _ H) as [Hall Hkeep].
      assert (Hd : d <> "/").
      { intros ->. by rewrite lookupNode_root in E. }
      split.
      * constructor; [|exact Hall].
        apply Hkeep. by apply lookupNode_insert_eq.
      * intros q Hq. apply Hkeep.
        destruct (decide (d = q)) as [->|Hne].
        -- by apply lookupNode_insert_eq.
        -- by rewrite lookupNode_insert_ne.
Qed.

(** Where the directories are there already, [mkdir] changes nothing. *)
Lemma mkdirEach_present target dirs st :
  Forall (fun d => NodeFs.lookupNode st d = Some NodeFs.Dir) dirs ->
  NodeFs.mkdirEach target dirs st = (Ok tt, st).
Proof.
  induction 1 as [|d rest Hd _ IH]; simpl; [reflexivity|].
  by rewrite Hd.
Qed.

(** A recursive [mkdir], whether it succeeds or stops half-way, changes no
    permission, keeps every node that exists, and creates nothing outside
    the directories it walks through. *)
Lemma mkdirEach_frame target dirs : forall st r st',
  NodeFs.mkdirEach target dirs st = (r, st') ->
  NodeFs.readOnly st' = NodeFs.readOnly st /\
  (forall q n, NodeFs.lookupNode st q = Some n ->
               NodeFs.lookupNode st' q = Some n) /\
  (forall q, q ∉ dirs -> NodeFs.lookupNode st' q = NodeFs.lookupNode st q).
Proof.
  induction dirs as [|d rest IH]; intros st r st' H; simpl in H.
  - inversion H; subst. by repeat split.
  - destruct (NodeFs.lookupNode st d) as [[c|]|] eqn:E.
    + inversion H; subst. by repeat split.
    + destruct (IH _ _ _ H) as (Hro & Hkeep & Hout).
      split; [exact Hro|]. split; [exact Hkeep|].
      intros q Hq. apply Hout. by apply not_elem_of_cons in Hq as [_ Hq].
    + destruct (NodeFs.writable st (NodePath.dirname d)).
      * destruct (IH _ _ _ H) as (Hro & Hkeep & Hout).
        split; [exact Hro|]. split.
        -- intros q n Hq. apply Hkeep.
           rewrite lookupNode_insert_ne; [exact Hq|].
           intros ->. rewrite E in Hq. discriminate.
        -- intros q Hq. apply not_elem_of_cons in Hq as [Hqd Hqr].
           rewrite Hout by done. by apply lookupNode_insert_ne.
      * inversion H; subst. by repeat split.
Qed.

(** Where every directory on the way is there or may be created, a
    recursive [mkdir] succeeds. *)
Lemma mkdirEach_creates target dirs : forall st,
  Forall (creatable st) dirs ->
  exists st', NodeFs.mkdirEach target dirs st = (Ok tt, st').
Proof.
  induction dirs as [|d rest IH]; intros st Hall; [by eexists|].
  inversion Hall as [|? ? Hd Hrest]; subst. simpl.
  destruct Hd as [Hd | [Hd Hw]]; rewrite Hd.
  - by apply IH.
  - rewrite Hw. apply IH. eapply Forall_impl; [exact Hrest|].
    intros q [Hq | [Hq Hwq]].
    + left. destruct (decide (d = q)) as [->|Hne];
        [rewrite Hq in Hd; discriminate|].
      by rewrite lookupNode_insert_ne.
    + destruct (decide (d = q)) as [->|Hne].
      * left. apply lookupNode_insert_eq. intros ->.
        by rewrite lookupNode_root in Hd.
      * right. split; [by rewrite lookupNode_insert_ne | exact Hwq].
Qed.

(** ** Full rewrite *)

Lemma rewriteFile_ok cwd root p c abs st st' :
  withinRoot cwd root p = Ok abs ->
  rewriteFile cwd root p c st = (Ok tt, st') ->
  NodeFs.lookupNode st' abs = Some (NodeFs.File c) /\
  Forall (fun d => NodeFs.lookupNode st' d = Some NodeFs.Dir) (parentDirs abs).
Proof.
  intros Habs. unfold rewriteFile, NodeFs.bindIo, NodeFs.lift. rewrite Habs.
  unfold NodeFs.mkdir.
  destruct (NodeFs.mkdirEach _ _ st) as [[[]|e] st1] eqn:Hmk; [|discriminate].
  intros Hwr. destruct (mkdirEach_ok _ _ _ _ Hmk) as [Hall _].
  destruct (writeFile_ok _ _ _ _ Hwr) as (-> & Hfile & Hnd).
  split; [exact Hfile|].
  eapply Forall_impl; [exact Hall|]. intros d Hd. simpl in Hd.
  rewrite lookupNode_insert_ne; [exact Hd|].
  intros ->. by apply Hnd.
Qed.

(** What [withinRoot] returns is a path of clean segments. *)
Lemma withinRoot_form cwd root p abs :
  NodePath.isAbsolute cwd = true ->
  withinRoot cwd root p = Ok abs ->
  exists segs, Forall cleanSegment segs /\ abs = "/" ++ Js.join "/" segs.
Proof.
  intros Hcwd. rewrite withinRoot_is_prefix_test by done. cbv zeta.
  destruct (String.prefix _ _); [|discriminate]. intros [= <-].
  by apply resolve_form.
Qed.

(** A rewrite of a path that does not exist yet: the directories that are
    missing on the way are created, then the file. *)
Lemma rewriteFile_creates cwd root p c abs st :
  NodePath.isAbsolute cwd = true ->
  withinRoot cwd root p = Ok abs ->
  NodeFs.lookupNode st abs = None ->
  Forall (creatable st) (parentDirs abs) ->
  NodeFs.writable st (NodePath.dirname abs) = true ->
  exists st',
    rewriteFile cwd root p c st = (Ok tt, st') /\
    NodeFs.lookupNode st' abs = Some (NodeFs.File c) /\
    Forall (fun d => NodeFs.lookupNode st' d = Some NodeFs.Dir) (parentDirs abs) /\
    (forall q, q <> abs -> q ∉ parentDirs abs ->
               NodeFs.lookupNode st' q = NodeFs.lookupNode st q).
Proof.
  intros Hcwd Habs Hnone Hcreat Hw.
  destruct (withinRoot_form _ _ _ _ Hcwd Habs) as (segs & Hclean & Hform).
  assert (Hne : abs <> "/").
  { intros ->. by rewrite lookupNode_root in Hnone. }
  destruct segs as [|x segs _] using rev_ind; [done|].
  pose proof (path_not_own_parent _ _ Hclean) as Hself.
  pose proof (dirname_among_parents _ _ Hclean) as Hparent.
  cbv zeta in Hparent. rewrite <- Hform in Hself, Hparent.
  unfold rewriteFile, NodeFs.bindIo, NodeFs.lift. rewrite Habs.
  unfold NodeFs.mkdir. fold (parentDirs abs).
  destruct (mkdirEach_creates (NodePath.dirname abs) _ _ Hcreat) as [st1 Hmk].
  rewrite Hmk.
  destruct (mkdirEach_ok _ _ _ _ Hmk) as [Hdirs _].
  destruct (mkdirEach_frame _ _ _ _ _ Hmk) as (Hro & _ & Hout).
  assert (Hdir : NodeFs.lookupNode st1 (NodePath.dirname abs) = Some NodeFs.Dir).
  { destruct Hparent as [->|Hin]; [apply lookupNode_root|].
    by apply (proj1 (Forall_forall _ _) Hdirs). }
  assert (Hw1 : NodeFs.writable st1 (NodePath.dirname abs) = true).
  { unfold NodeFs.writable in *. by rewrite Hro. }
  eexists. split.
  { unfold NodeFs.writeFile. rewrite (Hout _ Hself), Hnone, Hdir, Hw1.
    reflexivity. }
  split; [by apply lookupNode_insert_eq|]. split.
  - apply Forall_forall. intros d Hd.
    rewrite lookupNode_insert_ne by (by intros ->).
    by apply (proj1 (Forall_forall _ _) Hdirs).
  - intros q Hq Hnot. rewrite lookupNode_insert_ne by done. by apply Hout.
Qed.

(** C8.  For a path that is a string and not blank, [rewrite_file] hands the
    content (the empty string when the field is absent or not a string) to
    [rewriteFile]: whenever the answer is a success it is
    [{ok: true, path, op: "rewrite"}], the resolved path holds exactly that
    content and its parent directories exist; over an existing, writable
    file whose directories are in place the request does succeed and
    replaces the content, so the empty content leaves zero bytes; a
    path that is missing, not a string or blank is answered with an error
    and nothing is touched; and for a path that does not exist yet, in a
    process with an absolute working directory, the request succeeds
    whenever each directory on the way is there or may be created and the
    file may be created in the last: the missing directories are created,
    the file holds the content, and nothing else changes. *)
Theorem rewrite_file_writes_content (cwd root : string) :
  (forall (p : string) (content : jsValue) (abs : string)
          (st st' : NodeFs.state) (p' o' : string),
      Js.truthy (Js.trim p) = true ->
      withinRoot cwd root p = Ok abs ->
      rewrite_file cwd root (JsString p) content st = (Success p' o', st') ->
      p' = p /\ o' = "rewrite" /\
      NodeFs.lookupNode st' abs = Some (NodeFs.File (contentText content)) /\
      Forall (fun d => NodeFs.lookupNode st' d = Some NodeFs.Dir) (parentDirs abs)) /\
  (forall (p : string) (content : jsValue) (abs old : string)
          (st : NodeFs.state),
      Js.truthy (Js.trim p) = true ->
      withinRoot cwd root p = Ok abs ->
      NodeFs.lookupNode st abs = Some (NodeFs.File old) ->
      NodeFs.writable st abs = true ->
      Forall (fun d => NodeFs.lookupNode st d = Some NodeFs.Dir) (parentDirs abs) ->
      rewrite_file cwd root (JsString p) content st =
        (Success p "rewrite",
         NodeFs.mkState
           (<[abs := NodeFs.File (contentText content)]> (NodeFs.nodes st))
           (NodeFs.readOnly st))) /\
  (forall (relPath content : jsValue) (st : NodeFs.state),
      match relPath with
      | JsString p => Js.truthy (Js.trim p) = false
      | _ => True
      end ->
      rewrite_file cwd root relPath content st =
        (Failure "Missing or invalid 'path' for rewrite_file", st)) /\
  (forall (p : string) (content : jsValue) (abs : string)
          (st : NodeFs.state),
      NodePath.isAbsolute cwd = true ->
      Js.truthy (Js.trim p) = true ->
      withinRoot cwd root p = Ok abs ->
      hasNul abs = false ->
      NodeFs.lookupNode st abs = None ->
      Forall (creatable st) (parentDirs abs) ->
      NodeFs.writable st (NodePath.dirname abs) = true ->
      exists st' : NodeFs.state,
        rewrite_file cwd root (JsString p) content st =
          (Success p "rewrite", st') /\
        NodeFs.lookupNode st' abs = Some (NodeFs.File (contentText content)) /\
        Forall (fun d => NodeFs.lookupNode st' d = Some NodeFs.Dir)
               (parentDirs abs) /\
        (forall q, q <> abs -> q ∉ parentDirs abs ->
                   NodeFs.lookupNode st' q = NodeFs.lookupNode st q)).
Proof.
  split; [|split; [|split]].
  - intros p content abs st st' p' o' Hp Habs. unfold rewrite_file.
    rewrite Hp. simpl negb. cbv iota. fold (contentText content).
    destruct (rewriteFile cwd root p (contentText content) st)
      as [[[]|e] st1] eqn:Hrw; [|discriminate].
    intros [= <- <- <-].
    destruct (rewriteFile_ok _ _ _ _ _ _ _ Habs Hrw) as [Hfile Hdirs].
    by repeat split.
  - intros p content abs old st Hp Habs Hfile Hw Hdirs. unfold rewrite_file.
    rewrite Hp. simpl negb. cbv iota. fold (contentText content).
    unfold rewriteFile, NodeFs.bindIo, NodeFs.lift. rewrite Habs.
    unfold NodeFs.mkdir. fold (parentDirs abs).
    rewrite (mkdirEach_present _ _ _ Hdirs).
    unfold NodeFs.writeFile. by rewrite Hfile, Hw.
  - intros relPath content st H. unfold rewrite_file.
    destruct relPath as [|p|]; [reflexivity| |reflexivity].
    by rewrite H.
  - intros p content abs st Hcwd Hp Habs _ Hnone Hcreat Hw.
    destruct (rewriteFile_creates cwd root p (contentText content) abs st
                Hcwd Habs Hnone Hcreat Hw) as (st' & Hrw & Hrest).
    exists st'. split; [|exact Hrest].
    unfold rewrite_file. rewrite Hp. simpl negb. cbv iota.
    fold (contentText content). by rewrite Hrw.
Qed.

Lemma rewrite_file_witness :
  rewrite_file "/" "/ws" (JsString "a.txt") (JsString "") scenarioFs =
    (Success "a.txt" "rewrite",
     NodeFs.mkState (<["/ws/a.txt" := NodeFs.File ""]> (NodeFs.nodes scenarioFs)) ∅) /\
  rewrite_file "/" "/ws" (JsString "  ") (JsString "x") scenarioFs =
    (Failure "Missing or invalid 'path' for rewrite_file", scenarioFs) /\
  (NodeFs.lookupNode scenarioFs "/ws/new" = None /\
   NodeFs.lookupNode scenarioFs "/ws/new/dir" = None /\
   exists st' : NodeFs.state,
     rewrite_file "/" "/ws" (JsString "new/dir/f.txt") (JsString "hi")
                  scenarioFs =
       (Success "new/dir/f.txt" "rewrite", st') /\
     NodeFs.lookupNode st' "/ws/new/dir/f.txt" = Some (NodeFs.File "hi") /\
     NodeFs.lookupNode st' "/ws/new" = Some NodeFs.Dir /\
     NodeFs.lookupNode st' "/ws/new/dir" = Some NodeFs.Dir /\
     NodeFs.lookupNode st' "/ws/a.txt" = NodeFs.lookupNode scenarioFs "/ws/a.txt").
Proof.
  destruct (rewrite_file_writes_content "/" "/ws") as (_ & Hover & Hbad & Hnew).
  split; [|split].
  - apply (Hover "a.txt" (JsString "") "/ws/a.txt"
             (unlines ["one"; "two"; "three"; ""]) scenarioFs);
      try reflexivity.
    repeat constructor.
  - apply (Hbad (JsString "  ") (JsString "x") scenarioFs). reflexivity.
  - split; [reflexivity|]. split; [reflexivity|].
    destruct (Hnew "new/dir/f.txt" (JsString "hi") "/ws/new/dir/f.txt"
                scenarioFs eq_refl eq_refl eq_refl eq_refl eq_refl)
      as (st' & Hresp & Hfile & Hdirs & Hout).
    + change (Forall (creatable scenarioFs) ["/ws"; "/ws/new"; "/ws/new/dir"]).
      constructor; [by left|].
      constructor; [right; by split|].
      constructor; [right; by split|]. constructor.
    + reflexivity.
    + exists st'. split; [exact Hresp|]. split; [exact Hfile|].
      change (Forall (fun d => NodeFs.lookupNode st' d = Some NodeFs.Dir)
                ["/ws"; "/ws/new"; "/ws/new/dir"]) in Hdirs.
      inversion Hdirs as [|? ? _ Hd1]; subst.
      inversion Hd1 as [|? ? Hnew1 Hd2]; subst.
      inversion Hd2 as [|? ? Hnew2 _]; subst.
      split; [exact Hnew1|]. split; [exact Hnew2|].
      apply Hout; [discriminate|].
      change ("/ws/a.txt" ∉ ["/ws"; "/ws/new"; "/ws/new/dir"]).
      rewrite !not_elem_of_cons. repeat split; try discriminate.
      apply not_elem_of_nil.
Defined.

(** ** Added files *)


(** No blank line creeps in: the content is each text followed by its own
    newline. *)
Lemma join_then_newline t rest :
  Js.join Js.nl (t :: rest) ++ Js.nl =
  fold_right (fun t acc => t ++ Js.nl ++ acc) "" (t :: rest).
Proof.
  revert t. induction rest as [|t' rest IH]; intros t; [reflexivity|].
  change (Js.join Js.nl (t :: t' :: rest))
    with (t ++ Js.nl ++ Js.join Js.nl (t' :: rest)).
  rewrite !string_app_assoc, IH. reflexivity.
Qed.

Lemma addContentSpec_line_by_line ls :
  addContentSpec ls =
  fold_right (fun t acc => t ++ Js.nl ++ acc) ""
    (map Js.slice1 (List.filter isAddedLine ls)).
Proof.
  unfold addContentSpec.
  destruct (map Js.slice1 (List.filter isAddedLine ls)) as [|t rest];
    [reflexivity | apply join_then_newline].
Qed.




(** The request of the example goes through and leaves exactly
    [foo], newline, [bar], newline. *)
Lemma add_foo_bar_request :
  apply_patch "/" "/ws" (Some addFooBarPatch) scenarioFs =
    (Success "f.txt" "add",
     NodeFs.mkState
       (<["/ws/f.txt" := NodeFs.File (unlines ["foo"; "bar"; ""])]>
          (NodeFs.nodes scenarioFs))
       ∅).
Proof. by vm_compute. Qed.

(** ** Hunks *)

Lemma replacement_filter lns : replacement lns = replacementSpec lns.
Proof.
  unfold replacementSpec. induction lns as [|ln rest IH]; [reflexivity|].
  simpl. unfold keepsText at 1. destruct (type ln); simpl; by rewrite IH.
Qed.

(** From a start that is not negative, [splice] is the plain splice: its
    clamping agrees with what [take] and [drop] do past the end. *)
Lemma splice_from_start {A : Type} (l : list A) (s c : Z) (items : list A) :
  (0 <= s)%Z -> (0 <= c)%Z ->
  splice l s c items = spliceAt l (Z.to_nat s) (Z.to_nat c) items.
Proof.
  intros Hs Hc. unfold splice, spliceAt.
  destruct (Z.ltb_spec s 0) as [?|_]; [lia|].
  remember (Z.of_nat (length l)) as len eqn:Hlen.
  destruct (Z.le_gt_cases len s) as [Hge|Hlt].
  - rewrite Z.min_r by lia.
    rewrite !take_ge by lia. rewrite !drop_ge by lia. reflexivity.
  - rewrite Z.min_l by lia. f_equal. f_equal.
    destruct (Z.le_gt_cases c (len - s)) as [Hin|Hout].
    + f_equal. lia.
    + rewrite !drop_ge by lia. reflexivity.
Qed.

Lemma applyHunk_spec ls h :
  (1 <= start (oldRange h))%N -> applyHunk ls h = applyHunkSpec ls h.
Proof.
  intros Hs. unfold applyHunk, applyHunkSpec.
  rewrite splice_from_start by lia. rewrite replacement_filter.
  f_equal; lia.
Qed.

Lemma spliceAt_length {A : Type} (ls : list A) i c block :
  i + c <= length ls ->
  length (spliceAt ls i c block) + c = length ls + length block.
Proof.
  intros H. unfold spliceAt.
  rewrite !length_app, length_take, length_drop. lia.
Qed.

Lemma pushCurrent_ranges hs current :
  map oldRange (pushCurrent hs current) =
  (map oldRange hs ++
   match current with Some h => [oldRange h] | None => [] end)%list.
Proof.
  destruct current; simpl; [by rewrite map_app | by rewrite app_nil_r].
Qed.

(** The parser keeps the hunks in the order of their headers. *)
Lemma parseHunks_ranges ls : forall hs current,
  map oldRange (parseHunks ls hs current) =
  (map oldRange (pushCurrent hs current) ++ omap headerOldRange ls)%list.
Proof.
  induction ls as [|line rest IH]; intros hs current; simpl.
  - by rewrite app_nil_r.
  - unfold headerOldRange at 1.
    destruct (hunkHeader line) as [[[[a b] c] d]|].
    + rewrite IH. rewrite (pushCurrent_ranges (pushCurrent hs current)).
      simpl. by rewrite <- app_assoc.
    + destruct current as [h|]; [|apply IH].
      repeat match goal with
             | |- context [if ?b then _ else _] => destruct b
             end; rewrite IH, !pushCurrent_ranges; reflexivity.
Qed.

(** A hunk whose range runs past the end of the file deletes the lines
    there are: [splice] clamps its count.  Of the two lines [a], [b], the
    hunk [-2,5] removes one and leaves two lines. *)
Lemma hunk_past_end_deletes_fewer_lines :
  applyHunk ["a"; "b"] pastEndHunk = ["a"; "x"] /\
  (Z.of_nat (length (applyHunk ["a"; "b"] pastEndHunk)) <>
   Z.of_nat (length ["a"; "b"]) - Z.of_N (count (oldRange pastEndHunk))
   + Z.of_nat (length (replacement (lines pastEndHunk))))%Z.
Proof. split; [reflexivity | discriminate]. Qed.

(** A start of 0 gives the index -1, which [splice] counts from the end:
    the last line is the one replaced. *)
Lemma hunk_at_line_zero_hits_last_line :
  applyHunk ["a"; "b"; "c"]
    (mkHunk (mkRange 0 1) (mkRange 0 1) [mkLine Add "x"]) = ["a"; "b"; "x"].
Proof. reflexivity. Qed.

(** The hunks of an update come out of the parser in the order of their
    headers and are applied in that order, each to the line sequence the
    earlier ones left, at the index [oldRange.start - 1] taken from its
    header as it stands.  For a hunk that starts at line 1 or later, the
    lines before the index stay, the texts of its add and context lines (in
    hunk-line order, remove lines giving nothing) follow, then the lines
    from index + [oldRange.count] on; when the range lies within the
    sequence, exactly [oldRange.count] lines are gone. *)
Lemma applyHunks_in_patch_order :
  (forall ls : list string,
      map oldRange (parseHunks ls [] None) = omap headerOldRange ls) /\
  (forall (ls : list string) (hs : list PatchHunk),
      Forall (fun h => (1 <= start (oldRange h))%N) hs ->
      applyHunks ls hs = fold_left applyHunkSpec hs ls) /\
  (forall (ls : list string) (h : PatchHunk),
      (1 <= start (oldRange h))%N ->
      N.to_nat (start (oldRange h)) - 1 + N.to_nat (count (oldRange h))
        <= length ls ->
      length (applyHunk ls h) + N.to_nat (count (oldRange h)) =
      length ls + length (replacementSpec (lines h))).
Proof.
  split; [|split].
  - intros ls. by rewrite parseHunks_ranges.
  - intros ls hs Hall. revert ls.
    induction Hall as [|h rest Hh _ IH]; intros ls; [reflexivity|].
    simpl. rewrite (applyHunk_spec _ _ Hh). apply IH.
  - intros ls h Hs Hin. rewrite (applyHunk_spec _ _ Hs).
    by apply spliceAt_length.
Qed.




(** * Further properties *)

(** ** Path resolution *)

Lemma prefix_app (a b : string) : String.prefix a (a ++ b) = true.
Proof.
  induction a as [|x a IH]; [by destruct b|].
  change (String x a ++ b) with (String x (a ++ b)). cbn [String.prefix].
  by destruct (ascii_dec x x).
Qed.

Lemma toLowerCase_app (a b : string) :
  Js.toLowerCase (a ++ b) = Js.toLowerCase a ++ Js.toLowerCase b.
Proof.
  induction a as [|x a IH]; [reflexivity|].
  change (String x a ++ b) with (String x (a ++ b)).
  cbn [Js.toLowerCase]. by rewrite IH.
Qed.

Lemma string_app_empty_r (a : string) : a ++ "" = a.
Proof.
  induction a as [|x a IH]; [reflexivity|].
  change (String x a ++ "") with (String x (a ++ "")). by rewrite IH.
Qed.

Lemma normalizeSegments_clean_prefix b segs : forall kept rest,
  Forall cleanSegment segs ->
  NodePath.normalizeSegments b kept (segs ++ rest) =
  NodePath.normalizeSegments b (rev segs ++ kept) rest.
Proof.
  induction segs as [|seg segs IH]; intros kept rest Hall; [reflexivity|].
  inversion Hall as [|? ? (H1 & H2 & H3 & _) Hrest]; subst.
  cbn [app NodePath.normalizeSegments].
  destruct (String.eqb_spec seg ""); [done|].
  destruct (String.eqb_spec seg "."); [done|]. cbn [orb].
  destruct (String.eqb_spec seg ".."); [done|].
  rewrite IH by done. cbn [rev]. by rewrite <- app_assoc.
Qed.

Lemma normalizeSegments_without_dotdot b segs : forall kept,
  Forall (fun seg => seg <> "..") segs ->
  NodePath.normalizeSegments b kept segs =
  (rev kept ++ List.filter keptSegment segs)%list.
Proof.
  induction segs as [|seg segs IH]; intros kept Hall.
  - cbn. by rewrite app_nil_r.
  - inversion Hall as [|? ? Hseg Hrest]; subst.
    cbn [NodePath.normalizeSegments List.filter]. unfold keptSegment at 1.
    destruct (String.eqb seg "" || String.eqb seg "."); cbn [negb].
    + by apply IH.
    + destruct (String.eqb_spec seg ".."); [done|].
      rewrite IH by done. cbn [rev]. by rewrite <- app_assoc.
Qed.

Lemma filter_kept_clean segs :
  Forall (fun seg => Js.split Js.slash seg = [seg]) segs ->
  Forall (fun seg => seg <> "..") segs ->
  Forall cleanSegment (List.filter keptSegment segs).
Proof.
  induction segs as [|seg segs IH]; intros Hsep Hdd; [constructor|].
  inversion Hsep as [|? ? Hs Hsep']; inversion Hdd as [|? ? Hd Hdd']; subst.
  cbn [List.filter]. unfold keptSegment at 1.
  destruct (String.eqb_spec seg "") as [|Hn1]; [by apply IH|].
  destruct (String.eqb_spec seg ".") as [|Hn2]; [by apply IH|].
  cbn. constructor; [done | by apply IH].
Qed.

Lemma split_join_app c segs X :
  segs <> [] ->
  Forall (fun seg => Js.split c seg = [seg]) segs ->
  Js.split c (Js.join (String c "") segs ++ String c X) =
  (segs ++ Js.split c X)%list.
Proof.
  intros Hne Hall. induction Hall as [|x rest Hx Hrest IH]; [done|].
  destruct rest as [|y rest]; [by apply split_app_sep|].
  change (Js.join (String c "") (x :: y :: rest))
    with (x ++ String c (Js.join (String c "") (y :: rest))).
  rewrite string_app_assoc.
  change (String c (Js.join (String c "") (y :: rest)) ++ String c X)
    with (String c (Js.join (String c "") (y :: rest) ++ String c X)).
  rewrite (split_app_sep _ _ _ Hx). by rewrite IH.
Qed.

(** What is appended to a resolved root is normalised on top of the
    segments of the root. *)
Lemma normalize_below_root segs X :
  Forall cleanSegment segs ->
  NodePath.normalizeSegments false []
    (Js.split Js.slash (("/" ++ Js.join "/" segs) ++ "/" ++ X)) =
  NodePath.normalizeSegments false (rev segs) (Js.split Js.slash X).
Proof.
  intros Hall. rewrite string_app_assoc.
  change ("/" ++ Js.join "/" segs ++ "/" ++ X)
    with (String Js.slash (Js.join (String Js.slash "") segs ++ String Js.slash X)).
  cbn [Js.split]. rewrite Ascii.eqb_refl.
  change (NodePath.normalizeSegments false [] ("" :: ?l))
    with (NodePath.normalizeSegments false [] l).
  destruct segs as [|x rest].
  - change (Js.join (String Js.slash "") [] ++ String Js.slash X)
      with (String Js.slash X).
    cbn [Js.split]. by rewrite Ascii.eqb_refl.
  - rewrite split_join_app; [|done|by apply clean_no_sep].
    rewrite normalizeSegments_clean_prefix by done. by rewrite app_nil_r.
Qed.

(** Resolving a path below a resolved root. *)
Lemma resolve_below_root cwd segs rel :
  Forall cleanSegment segs ->
  Js.truthy rel = true ->
  NodePath.isAbsolute rel = false ->
  NodePath.resolve cwd ["/" ++ Js.join "/" segs; rel] =
  "/" ++ Js.join "/"
    (NodePath.normalizeSegments false (rev segs)
       (Js.split Js.slash rel ++ [""])).
Proof.
  intros Hall Ht Hrel. unfold NodePath.resolve.
  cbn [rev app NodePath.resolveLoop]. rewrite Ht, Hrel.
  rewrite isAbsolute_slash.
  change (Js.truthy ("/" ++ Js.join "/" segs)) with true. cbv iota.
  cbn [negb]. unfold NodePath.normalizeString.
  rewrite normalize_below_root by done.
  change (rel ++ "/" ++ "") with (rel ++ String Js.slash "").
  by rewrite split_snoc_sep.
Qed.

(** Resolving a resolved path again changes nothing. *)
Lemma resolve_resolved cwd segs :
  Forall cleanSegment segs ->
  NodePath.resolve cwd ["/" ++ Js.join "/" segs] = "/" ++ Js.join "/" segs.
Proof.
  intros Hall. unfold NodePath.resolve.
  cbn [rev app NodePath.resolveLoop]. rewrite isAbsolute_slash.
  change (Js.truthy ("/" ++ Js.join "/" segs)) with true. cbv iota.
  cbn [negb]. unfold NodePath.normalizeString.
  rewrite normalize_below_root by done.
  cbn [Js.split NodePath.normalizeSegments String.eqb orb].
  by rewrite rev_involutive.
Qed.

Lemma endsWithSlash_root segs :
  segs <> [] -> Forall cleanSegment segs ->
  NodePath.endsWithSlash ("/" ++ Js.join "/" segs) = false.
Proof.
  intros Hne Hall. pose proof (join_clean_truthy _ Hne Hall) as Ht.
  change ("/" ++ Js.join "/" segs) with (String Js.slash (Js.join "/" segs)).
  cbn [NodePath.endsWithSlash].
  destruct (Js.join "/" segs) eqn:E; [done|].
  rewrite <- E. by apply endsWithSlash_join.
Qed.

Lemma underRoot_refl ROOT : underRoot ROOT ROOT = true.
Proof. unfold underRoot. by rewrite String.eqb_refl. Qed.

(** A path that continues the segments of the root lies below the root. *)
Lemma below_root_form segs K :
  Forall cleanSegment segs -> Forall cleanSegment K ->
  exists tail,
    "/" ++ Js.join "/" (segs ++ K) = ("/" ++ Js.join "/" segs) ++ tail /\
    underRoot ("/" ++ Js.join "/" segs) (("/" ++ Js.join "/" segs) ++ tail) = true.
Proof.
  intros Hsegs HK. destruct K as [|k K].
  - exists "". rewrite app_nil_r, string_app_empty_r.
    split; [reflexivity | apply underRoot_refl].
  - destruct segs as [|s segs].
    + exists (Js.join "/" (k :: K)). split; [reflexivity|].
      unfold underRoot. apply orb_true_intro. right.
      change (("/" ++ Js.join "/" []) ++ Js.join "/" (k :: K))
        with ("/" ++ Js.join "/" (k :: K)).
      exact (isAbsolute_slash _).
    + exists ("/" ++ Js.join "/" (k :: K)). split.
      * rewrite join_app by done. by rewrite !string_app_assoc.
      * unfold underRoot. apply orb_true_intro. right.
        rewrite endsWithSlash_root by done.
        unfold Js.startsWith. rewrite <- string_app_assoc. apply prefix_app.
Qed.

(** X1.  In a process with an absolute working directory, a relative path
    none of whose segments is [..] is always accepted by [withinRoot], and
    the path returned is the resolved root itself or lies below it. *)
Theorem withinRoot_accepts_paths_without_dotdot (cwd root relPath : string) :
  NodePath.isAbsolute cwd = true ->
  NodePath.isAbsolute relPath = false ->
  Forall (fun seg => seg <> "..") (Js.split Js.slash relPath) ->
  exists tail,
    withinRoot cwd root relPath = Ok (NodePath.resolve cwd [root] ++ tail) /\
    underRoot (NodePath.resolve cwd [root])
              (NodePath.resolve cwd [root] ++ tail) = true.
Proof.
  intros Hcwd Hrel Hdd.
  destruct (resolve_form cwd [root] Hcwd) as (segs & Hclean & HR).
  rewrite (withinRoot_is_prefix_test _ _ _ Hcwd). cbv zeta. rewrite HR.
  set (rel := if Js.truthy relPath && Js.truthy (Js.trim relPath)
              then relPath else ".").
  assert (Ht : Js.truthy rel = true).
  { unfold rel. destruct (Js.truthy relPath) eqn:E; [|reflexivity].
    destruct (Js.truthy (Js.trim relPath)); [exact E | reflexivity]. }
  assert (Ha : NodePath.isAbsolute rel = false).
  { unfold rel. by destruct (Js.truthy relPath && Js.truthy (Js.trim relPath)). }
  assert (Hd : Forall (fun seg => seg <> "..") (Js.split Js.slash rel)).
  { unfold rel. destruct (Js.truthy relPath && Js.truthy (Js.trim relPath));
      [exact Hdd | by repeat constructor]. }
  rewrite (resolve_below_root _ _ _ Hclean Ht Ha).
  rewrite normalizeSegments_without_dotdot
    by (apply Forall_app; split; [exact Hd | by repeat constructor]).
  rewrite rev_involutive, List.filter_app. cbn [List.filter keptSegment].
  change (keptSegment "") with false. cbv iota. rewrite app_nil_r.
  destruct (below_root_form segs (List.filter keptSegment (Js.split Js.slash rel))
              Hclean) as (tail & Heq & Hunder).
  { apply filter_kept_clean; [apply split_pieces_have_no_sep | exact Hd]. }
  exists tail.
  rewrite Heq, (toLowerCase_app ("/" ++ Js.join "/" segs) tail), prefix_app.
  by split.
Qed.

Lemma withinRoot_accepts_paths_without_dotdot_witness :
  exists tail,
    withinRoot "/home/u" "ws" "src//./mcp/server.ts" =
      Ok (NodePath.resolve "/home/u" ["ws"] ++ tail) /\
    underRoot (NodePath.resolve "/home/u" ["ws"])
              (NodePath.resolve "/home/u" ["ws"] ++ tail) = true.
Proof.
  apply (withinRoot_accepts_paths_without_dotdot "/home/u" "ws"
           "src//./mcp/server.ts"); [reflexivity | reflexivity |].
  repeat constructor; discriminate.
Defined.

(** X2.  An empty or blank relative path stands for the root: in a process
    with an absolute working directory [withinRoot] returns the resolved
    root itself. *)
Theorem withinRoot_blank_path_is_root (cwd root relPath : string) :
  NodePath.isAbsolute cwd = true ->
  Js.truthy (Js.trim relPath) = false ->
  withinRoot cwd root relPath = Ok (NodePath.resolve cwd [root]).
Proof.
  intros Hcwd Hblank.
  destruct (resolve_form cwd [root] Hcwd) as (segs & Hclean & HR).
  rewrite (withinRoot_is_prefix_test _ _ _ Hcwd). cbv zeta.
  rewrite Hblank, andb_false_r, HR.
  rewrite (resolve_below_root _ _ _ Hclean) by reflexivity.
  change (NodePath.normalizeSegments false (rev segs)
            (Js.split Js.slash "." ++ [""])) with (rev (rev segs)).
  rewrite rev_involutive.
  rewrite <- (string_app_empty_r (Js.toLowerCase ("/" ++ Js.join "/" segs))) at 2.
  by rewrite prefix_app.
Qed.

Lemma withinRoot_blank_path_is_root_witness :
  withinRoot "/srv" "/ws/./site/" "   " = Ok "/ws/site".
Proof.
  apply (withinRoot_blank_path_is_root "/srv" "/ws/./site/" "   "); reflexivity.
Defined.

(** X3.  What [withinRoot] does guarantee about a path it returns, in a
    process with an absolute working directory: the path is absolute and
    already in normal form (normalising or resolving it again gives it
    back), and the lower-cased resolved root is a string prefix of its
    lower-cased form. *)
Theorem withinRoot_returns_resolved_path (cwd root relPath abs : string) :
  NodePath.isAbsolute cwd = true ->
  withinRoot cwd root relPath = Ok abs ->
  NodePath.isAbsolute abs = true /\
  NodePath.normalize abs = abs /\
  NodePath.resolve cwd [abs] = abs /\
  String.prefix (Js.toLowerCase (NodePath.resolve cwd [root]))
                (Js.toLowerCase abs) = true.
Proof.
  intros Hcwd. rewrite (withinRoot_is_prefix_test _ _ _ Hcwd). cbv zeta.
  destruct (String.prefix _ _) eqn:Hpre; [|discriminate].
  intros [= <-].
  destruct (resolve_form cwd
              [NodePath.resolve cwd [root];
               if Js.truthy relPath && Js.truthy (Js.trim relPath)
               then relPath else "."] Hcwd) as (segs & Hclean & Habs).
  rewrite Habs in *.
  repeat split.
  - apply isAbsolute_slash.
  - by apply normalize_of_clean.
  - by apply resolve_resolved.
  - exact Hpre.
Qed.

Lemma withinRoot_returns_resolved_path_witness :
  NodePath.isAbsolute "/ws/docs/a.md" = true /\
  NodePath.normalize "/ws/docs/a.md" = "/ws/docs/a.md" /\
  NodePath.resolve "/" ["/ws/docs/a.md"] = "/ws/docs/a.md" /\
  String.prefix (Js.toLowerCase (NodePath.resolve "/" ["/ws"]))
                (Js.toLowerCase "/ws/docs/a.md") = true.
Proof.
  apply (withinRoot_returns_resolved_path "/" "/ws" "src/../docs//a.md");
    reflexivity.
Defined.

(** X4.  The value of either root provider is a resolved path: the
    [path.resolve] that [withinRoot] applies to it again gives it back, so
    the root compared against and named in the error is the provider's
    value (absolute working directory). *)
Theorem root_providers_are_resolved (cwd : string) :
  NodePath.isAbsolute cwd = true ->
  (forall env : option string,
      NodePath.resolve cwd [defaultGetRoot cwd env] = defaultGetRoot cwd env) /\
  (forall (stateRoot runtimeRoot : string) (env : option string),
      NodePath.resolve cwd [getWorkspaceRoot cwd stateRoot runtimeRoot env] =
      getWorkspaceRoot cwd stateRoot runtimeRoot env).
Proof.
  intros Hcwd. split.
  - intros env. unfold defaultGetRoot.
    destruct (resolve_form cwd [orElse (default "" env) cwd] Hcwd)
      as (segs & Hclean & ->).
    by apply resolve_resolved.
  - intros stateRoot runtimeRoot env. unfold getWorkspaceRoot.
    destruct (resolve_form cwd
                [orElse stateRoot
                   (orElse runtimeRoot (orElse (default "" env) cwd))] Hcwd)
      as (segs & Hclean & ->).
    by apply resolve_resolved.
Qed.

Lemma root_providers_are_resolved_witness :
  NodePath.resolve "/home/u/app" [defaultGetRoot "/home/u/app" (Some "../ws/")] =
    defaultGetRoot "/home/u/app" (Some "../ws/") /\
  defaultGetRoot "/home/u/app" (Some "../ws/") = "/home/u/ws" /\
  getWorkspaceRoot "/home/u/app" "" "." None = "/home/u/app".
Proof.
  destruct (root_providers_are_resolved "/home/u/app" eq_refl) as [Hd _].
  split; [apply Hd | split; reflexivity].
Defined.

Lemma length_toLowerCase s : String.length (Js.toLowerCase s) = String.length s.
Proof. induction s as [|x s IH]; [reflexivity|]. cbn. by rewrite IH. Qed.

Lemma prefix_length (a b : string) :
  String.prefix a b = true -> String.length a <= String.length b.
Proof.
  revert b. induction a as [|x a IH]; intros b H; cbn; [lia|].
  destruct b as [|y b]; [discriminate|]. cbn in *.
  destruct (ascii_dec x y); [|discriminate]. apply IH in H. lia.
Qed.

(** X5.  The parent of the root is refused: unless the resolved root is [/]
    itself, [withinRoot] fails on [..] with the Security error (absolute
    working directory). *)
Theorem withinRoot_refuses_parent (cwd root : string) :
  NodePath.isAbsolute cwd = true ->
  NodePath.resolve cwd [root] <> "/" ->
  withinRoot cwd root ".." =
    Throw (SecurityError ".." (NodePath.resolve cwd [root])).
Proof.
  intros Hcwd Hroot.
  destruct (resolve_form cwd [root] Hcwd) as (segs & Hclean & HR).
  rewrite (withinRoot_is_prefix_test _ _ _ Hcwd). cbv zeta. rewrite HR in *.
  change (if Js.truthy ".." && Js.truthy (Js.trim "..") then ".." else ".")
    with "..".
  rewrite (resolve_below_root _ _ _ Hclean) by reflexivity.
  destruct (rev segs) as [|last rinit] eqn:Hrev.
  { apply (f_equal (@rev string)) in Hrev. rewrite rev_involutive in Hrev.
    subst segs. by destruct Hroot. }
  assert (Hsegs : segs = (rev rinit ++ [last])%list).
  { apply (f_equal (@rev string)) in Hrev. by rewrite rev_involutive in Hrev. }
  assert (Hlast : cleanSegment last).
  { apply Forall_rev in Hclean. rewrite Hrev in Hclean. by inversion Hclean. }
  destruct Hlast as (Hne & _ & Hdd & _).
  assert (Hn : NodePath.normalizeSegments false (last :: rinit)
                 (Js.split Js.slash ".." ++ [""]) = rev rinit).
  { change (Js.split Js.slash ".." ++ [""])%list with [".."; ""].
    cbn [NodePath.normalizeSegments String.eqb Ascii.eqb Bool.eqb orb andb].
    cbv iota. by destruct (String.eqb_spec last ".."). }
  rewrite Hn.
  destruct (String.prefix _ _) eqn:Hpre; [|reflexivity].
  apply prefix_length in Hpre. rewrite !length_toLowerCase in Hpre.
  rewrite !string_length_app in Hpre.
  pose proof (join_snoc_longer (rev rinit) last Hne) as Hlt.
  rewrite <- Hsegs in Hlt. lia.
Qed.

Lemma withinRoot_refuses_parent_witness :
  withinRoot "/home/u" "ws" ".." = Throw (SecurityError ".." "/home/u/ws").
Proof.
  apply (withinRoot_refuses_parent "/home/u" "ws"); [reflexivity | discriminate].
Defined.

(** ** What a request leaves alone *)

Lemma lookupNode_delete_ne st p q ro :
  p <> q ->
  NodeFs.lookupNode (NodeFs.mkState (delete p (NodeFs.nodes st)) ro) q =
  NodeFs.lookupNode st q.
Proof.
  intros Hpq. unfold NodeFs.lookupNode. simpl.
  destruct (String.eqb q "/"); [done|]. by rewrite lookup_delete_ne.
Qed.

Lemma lookupNode_delete_eq st p ro :
  p <> "/" ->
  NodeFs.lookupNode (NodeFs.mkState (delete p (NodeFs.nodes st)) ro) p = None.
Proof.
  intros Hp. unfold NodeFs.lookupNode. simpl.
  destruct (String.eqb_spec p "/"); [done|]. by rewrite lookup_delete_eq.
Qed.

Lemma unlink_frame p st r st' :
  NodeFs.unlink p st = (r, st') ->
  NodeFs.readOnly st' = NodeFs.readOnly st /\
  forall q, q <> p -> NodeFs.lookupNode st' q = NodeFs.lookupNode st q.
Proof.
  unfold NodeFs.unlink. intros H.
  destruct (NodeFs.lookupNode st p) as [[c|]|]; try (by inversion H).
  destruct (NodeFs.writable st (NodePath.dirname p)); inversion H; subst;
    [|done].
  split; [reflexivity|]. intros q Hq. by apply lookupNode_delete_ne.
Qed.

Lemma writeFile_frame p c st r st' :
  NodeFs.writeFile p c st = (r, st') ->
  NodeFs.readOnly st' = NodeFs.readOnly st /\
  forall q, q <> p -> NodeFs.lookupNode st' q = NodeFs.lookupNode st q.
Proof.
  unfold NodeFs.writeFile. intros H.
  assert (Hins : forall q, q <> p ->
            NodeFs.lookupNode
              (NodeFs.mkState (<[p := NodeFs.File c]> (NodeFs.nodes st))
                              (NodeFs.readOnly st)) q =
            NodeFs.lookupNode st q).
  { intros q Hq. by apply lookupNode_insert_ne. }
  destruct (NodeFs.lookupNode st p) as [[old|]|].
  - destruct (NodeFs.writable st p); inversion H; subst; by split.
  - inversion H; subst; by split.
  - destruct (NodeFs.lookupNode st (NodePath.dirname p)) as [[?|]|];
      try (inversion H; subst; by split).
    destruct (NodeFs.writable st (NodePath.dirname p)); inversion H; subst;
      by split.
Qed.

Lemma apply_patch_result cwd root raw p r st st' :
  parseSimplifiedPatch raw = Ok p ->
  apply_patch cwd root (Some raw) st = (r, st') ->
  exists out, applyParsedPatch cwd root p st = (out, st').
Proof.
  intros Hp. rewrite (apply_patch_parsed _ _ _ _ _ Hp). unfold respond.
  destruct (applyParsedPatch cwd root p st) as [[[]|e] st1];
    intros [= <- <-]; eauto.
Qed.

(** X6.  A patch request changes at most its own target: no permission
    changes, every other file or directory that exists stays as it is, and
    nothing new appears except, for an add, the parent directories of the
    target; a delete or an update touches nothing but the target. *)
Theorem apply_patch_touches_only_target
    (cwd root raw : string) (p : ParsedPatch) (abs : string)
    (st st' : NodeFs.state) (r : response) :
  parseSimplifiedPatch raw = Ok p ->
  withinRoot cwd root (path p) = Ok abs ->
  apply_patch cwd root (Some raw) st = (r, st') ->
  NodeFs.readOnly st' = NodeFs.readOnly st /\
  (forall q n, q <> abs -> NodeFs.lookupNode st q = Some n ->
               NodeFs.lookupNode st' q = Some n) /\
  (forall q, q <> abs -> q ∉ parentDirs abs ->
             NodeFs.lookupNode st' q = NodeFs.lookupNode st q) /\
  (op p <> OpAdd ->
   forall q, q <> abs -> NodeFs.lookupNode st' q = NodeFs.lookupNode st q).
Proof.
  intros Hp Habs Hreq.
  destruct (apply_patch_result _ _ _ _ _ _ _ Hp Hreq) as [out Hrun].
  clear Hreq. revert Hrun.
  unfold applyParsedPatch, NodeFs.bindIo, NodeFs.lift. rewrite Habs.
  destruct (op p) eqn:Hop.
  - unfold NodeFs.mkdir. fold (parentDirs abs).
    destruct (NodeFs.mkdirEach _ (parentDirs abs) st) as [[[]|e] st1] eqn:Hmk.
    + intros Hwr.
      destruct (mkdirEach_frame _ _ _ _ _ Hmk) as (Hro1 & Hkeep1 & Hout1).
      destruct (writeFile_frame _ _ _ _ _ Hwr) as (Hro2 & Hfr2).
      split; [congruence|]. split; [|split].
      * intros q n Hq Hn. rewrite Hfr2 by done. by apply Hkeep1.
      * intros q Hq Hnp. rewrite Hfr2 by done. by apply Hout1.
      * done.
    + intros [= <- <-].
      destruct (mkdirEach_frame _ _ _ _ _ Hmk) as (Hro1 & Hkeep1 & Hout1).
      split; [exact Hro1|]. split; [|split].
      * intros q n _ Hn. by apply Hkeep1.
      * intros q _ Hnp. by apply Hout1.
      * done.
  - unfold NodeFs.tryCatch, NodeFs.readFile.
    destruct (NodeFs.lookupNode st abs) as [[c|]|];
      try (intros [= <- <-]; by repeat split).
    intros Hwr. destruct (writeFile_frame _ _ _ _ _ Hwr) as (Hro & Hfr).
    split; [exact Hro|]. split; [|split].
    + intros q n Hq Hn. by rewrite Hfr.
    + intros q Hq _. by apply Hfr.
    + intros _ q Hq. by apply Hfr.
  - unfold NodeFs.tryCatch.
    destruct (NodeFs.unlink abs st) as [[[]|e] st1] eqn:Hun;
      intros [= <- <-]; destruct (unlink_frame _ _ _ _ Hun) as (Hro & Hfr).
    + split; [exact Hro|]. split; [|split].
      * intros q n Hq Hn. by rewrite Hfr.
      * intros q Hq _. by apply Hfr.
      * intros _ q Hq. by apply Hfr.
    + split; [exact Hro|]. split; [|split].
      * intros q n Hq Hn. by rewrite Hfr.
      * intros q Hq _. by apply Hfr.
      * intros _ q Hq. by apply Hfr.
Qed.

Lemma apply_patch_touches_only_target_witness :
  NodeFs.lookupNode
    (snd (apply_patch "/" "/ws" (Some scenarioPatch) scenarioFs)) "/ws" =
  Some NodeFs.Dir.
Proof.
  destruct (apply_patch "/" "/ws" (Some scenarioPatch) scenarioFs)
    as [r st'] eqn:Hreq.
  destruct (apply_patch_touches_only_target "/" "/ws" scenarioPatch
              (mkPatch OpUpdate "a.txt" None
                 [mkHunk (mkRange 2 1) (mkRange 2 1)
                    [mkLine Remove "two"; mkLine Add "TWO"]])
              "/ws/a.txt" scenarioFs st' r eq_refl eq_refl Hreq)
    as (_ & Hkeep & _).
  apply Hkeep; [discriminate | reflexivity].
Defined.

Lemma rewrite_file_result cwd root p content r st st' :
  rewrite_file cwd root (JsString p) content st = (r, st') ->
  st' = st \/
  exists out, rewriteFile cwd root p (contentText content) st = (out, st').
Proof.
  unfold rewrite_file. destruct (negb (Js.truthy (Js.trim p))).
  - intros [= <- <-]. by left.
  - fold (contentText content).
    destruct (rewriteFile cwd root p (contentText content) st)
      as [[[]|e] st1]; intros [= <- <-]; right; eauto.
Qed.

(** X7.  A rewrite request changes at most its own target and the parent
    directories it creates: no permission changes, every other file or
    directory that exists stays as it is, and nothing appears outside the
    parents of the target. *)
Theorem rewrite_file_touches_only_target
    (cwd root p : string) (content : jsValue) (abs : string)
    (st st' : NodeFs.state) (r : response) :
  withinRoot cwd root p = Ok abs ->
  rewrite_file cwd root (JsString p) content st = (r, st') ->
  NodeFs.readOnly st' = NodeFs.readOnly st /\
  (forall q n, q <> abs -> NodeFs.lookupNode st q = Some n ->
               NodeFs.lookupNode st' q = Some n) /\
  (forall q, q <> abs -> q ∉ parentDirs abs ->
             NodeFs.lookupNode st' q = NodeFs.lookupNode st q).
Proof.
  intros Habs Hreq.
  destruct (rewrite_file_result _ _ _ _ _ _ _ Hreq) as [->|[out Hrun]];
    [by repeat split|].
  clear Hreq. revert Hrun.
  unfold rewriteFile, NodeFs.bindIo, NodeFs.lift. rewrite Habs.
  unfold NodeFs.mkdir. fold (parentDirs abs).
  destruct (NodeFs.mkdirEach _ (parentDirs abs) st) as [[[]|e] st1] eqn:Hmk.
  - intros Hwr.
    destruct (mkdirEach_frame _ _ _ _ _ Hmk) as (Hro1 & Hkeep1 & Hout1).
    destruct (writeFile_frame _ _ _ _ _ Hwr) as (Hro2 & Hfr2).
    split; [congruence|]. split.
    + intros q n Hq Hn. rewrite Hfr2 by done. by apply Hkeep1.
    + intros q Hq Hnp. rewrite Hfr2 by done. by apply Hout1.
  - intros [= <- <-].
    destruct (mkdirEach_frame _ _ _ _ _ Hmk) as (Hro1 & Hkeep1 & Hout1).
    split; [exact Hro1|]. split.
    + intros q n _ Hn. by apply Hkeep1.
    + intros q _ Hnp. by apply Hout1.
Qed.

Lemma rewrite_file_touches_only_target_witness :
  NodeFs.lookupNode
    (snd (rewrite_file "/" "/ws" (JsString "new/dir/f.txt") (JsString "x")
            scenarioFs)) "/ws/a.txt" =
  Some (NodeFs.File (unlines ["one"; "two"; "three"; ""])).
Proof.
  destruct (rewrite_file "/" "/ws" (JsString "new/dir/f.txt") (JsString "x")
              scenarioFs) as [r st'] eqn:Hreq.
  destruct (rewrite_file_touches_only_target "/" "/ws" "new/dir/f.txt"
              (JsString "x") "/ws/new/dir/f.txt" scenarioFs st' r
              eq_refl Hreq) as (_ & Hkeep & _).
  apply Hkeep; [discriminate | reflexivity].
Defined.

Lemma withinRoot_throws_security cwd root relPath e :
  withinRoot cwd root relPath = Throw e ->
  e = SecurityError relPath (NodePath.resolve cwd [root]).
Proof.
  unfold withinRoot. destruct (negb _); [|discriminate]. by intros [= <-].
Qed.

(** X8.  The containment check comes before any access to the file system:
    whenever [withinRoot] refuses the path of a request, a patch of any
    operation is answered with the text of the Security error, which names
    the path as written and the resolved root, a rewrite of a path that is
    not blank with the same text, and the file system is the one the
    request found.  In a process with an absolute working directory the
    paths refused are those whose resolved form does not begin, letter case
    apart, with the characters of the resolved root.  (That is not every
    path that leaves the root: a sibling whose name begins with the name of
    the root passes, and is then written to.) *)
Theorem refused_requests_touch_nothing (cwd root : string) :
  (forall (raw : string) (p : ParsedPatch) (e : error) (st : NodeFs.state),
      parseSimplifiedPatch raw = Ok p ->
      withinRoot cwd root (path p) = Throw e ->
      apply_patch cwd root (Some raw) st =
        (Failure (message (SecurityError (path p) (NodePath.resolve cwd [root]))),
         st)) /\
  (forall (p : string) (content : jsValue) (e : error) (st : NodeFs.state),
      withinRoot cwd root p = Throw e ->
      rewrite_file cwd root (JsString p) content st =
        (Failure (if Js.truthy (Js.trim p)
                  then message (SecurityError p (NodePath.resolve cwd [root]))
                  else "Missing or invalid 'path' for rewrite_file"),
         st)) /\
  (forall (raw : string) (p : ParsedPatch) (st : NodeFs.state),
      NodePath.isAbsolute cwd = true ->
      parseSimplifiedPatch raw = Ok p ->
      let ROOT := NodePath.resolve cwd [root] in
      let rel := if Js.truthy (path p) && Js.truthy (Js.trim (path p))
                 then path p else "." in
      String.prefix (Js.toLowerCase ROOT)
                    (Js.toLowerCase (NodePath.resolve cwd [ROOT; rel])) = false ->
      apply_patch cwd root (Some raw) st =
        (Failure (message (SecurityError (path p) ROOT)), st)).
Proof.
  assert (Hpatch : forall raw p e st,
             parseSimplifiedPatch raw = Ok p ->
             withinRoot cwd root (path p) = Throw e ->
             apply_patch cwd root (Some raw) st =
               (Failure (message (SecurityError (path p)
                                    (NodePath.resolve cwd [root]))), st)).
  { intros raw p e st Hp Hthrow.
    rewrite (apply_patch_parsed _ _ _ _ _ Hp).
    unfold applyParsedPatch, NodeFs.bindIo, NodeFs.lift. rewrite Hthrow.
    apply withinRoot_throws_security in Hthrow as ->. reflexivity. }
  split; [exact Hpatch|]. split.
  - intros p content e st Hthrow. unfold rewrite_file.
    destruct (Js.truthy (Js.trim p)); [|reflexivity]. cbn [negb].
    unfold rewriteFile, NodeFs.bindIo, NodeFs.lift. rewrite Hthrow.
    apply withinRoot_throws_security in Hthrow as ->. reflexivity.
  - intros raw p st Hcwd Hp ROOT rel Hprefix.
    apply (Hpatch raw p (SecurityError (path p) ROOT) st Hp).
    rewrite withinRoot_is_prefix_test by done. cbv zeta.
    fold ROOT. fold rel. by rewrite Hprefix.
Qed.

Lemma refused_requests_touch_nothing_witness :
  apply_patch "/" "/ws" (Some (deletePatch "../etc/passwd")) scenarioFs =
    (Failure (message (SecurityError "../etc/passwd" "/ws")), scenarioFs) /\
  rewrite_file "/" "/ws" (JsString "/etc/passwd") (JsString "x") scenarioFs =
    (Failure (message (SecurityError "/etc/passwd" "/ws")), scenarioFs).
Proof.
  destruct (refused_requests_touch_nothing "/" "/ws")
    as (_ & Hrewrite & Hpatch).
  split.
  - apply (Hpatch (deletePatch "../etc/passwd")
             (mkPatch OpDelete "../etc/passwd" None []) scenarioFs);
      reflexivity.
  - apply (Hrewrite "/etc/passwd" (JsString "x")
             (SecurityError "/etc/passwd" "/ws") scenarioFs). reflexivity.
Defined.

(** X9.  An update whose target cannot be read as a file, because nothing
    is there or because it is a directory, is answered with
    [File not found for update: <path>], where the path is the one written
    in the patch, and the file system is left as it was. *)
Theorem update_of_unreadable_target_fails
    (cwd root raw : string) (p : ParsedPatch) (abs : string)
    (st : NodeFs.state) :
  parseSimplifiedPatch raw = Ok p ->
  op p = OpUpdate ->
  withinRoot cwd root (path p) = Ok abs ->
  (forall c, NodeFs.lookupNode st abs <> Some (NodeFs.File c)) ->
  apply_patch cwd root (Some raw) st =
    (Failure ("File not found for update: " ++ path p), st).
Proof.
  intros Hp Hop Habs Hnofile.
  rewrite (apply_patch_parsed _ _ _ _ _ Hp).
  unfold applyParsedPatch, NodeFs.bindIo, NodeFs.lift. rewrite Habs, Hop.
  unfold NodeFs.tryCatch, NodeFs.readFile.
  destruct (NodeFs.lookupNode st abs) as [[c|]|]; [by destruct (Hnofile c)| |];
    reflexivity.
Qed.

Lemma update_of_unreadable_target_witness :
  apply_patch "/" "/" (Some (unlines ["*** Begin Patch"; "*** Update File: ws";
                                      "@@ -1,1 +1,1 @@"; "+x"])) scenarioFs =
    (Failure "File not found for update: ws", scenarioFs).
Proof.
  apply (update_of_unreadable_target_fails "/" "/" _
           (mkPatch OpUpdate "ws" None
              [mkHunk (mkRange 1 1) (mkRange 1 1) [mkLine Add "x"]]) "/ws");
    try reflexivity.
  intros c. discriminate.
Defined.

(** X10.  A delete patch whose target is an existing file in a directory
    the process may write removes exactly that file: the answer is
    [{ok: true, path, op: "delete"}] and the path is gone afterwards. *)
Theorem delete_removes_the_file
    (cwd root raw : string) (p : ParsedPatch) (abs content : string)
    (st : NodeFs.state) :
  parseSimplifiedPatch raw = Ok p ->
  op p = OpDelete ->
  withinRoot cwd root (path p) = Ok abs ->
  NodeFs.lookupNode st abs = Some (NodeFs.File content) ->
  NodeFs.writable st (NodePath.dirname abs) = true ->
  let st' := NodeFs.mkState (delete abs (NodeFs.nodes st)) (NodeFs.readOnly st) in
  apply_patch cwd root (Some raw) st = (Success (path p) "delete", st') /\
  NodeFs.lookupNode st' abs = None.
Proof.
  intros Hp Hop Habs Hfile Hw st'. split.
  - rewrite (apply_patch_parsed _ _ _ _ _ Hp).
    rewrite (applyParsedPatch_delete _ _ _ _ _ Hop Habs).
    unfold NodeFs.tryCatch, NodeFs.unlink. by rewrite Hfile, Hw, Hop.
  - apply lookupNode_delete_eq. intros ->.
    rewrite lookupNode_root in Hfile. discriminate.
Qed.

Lemma delete_removes_the_file_witness :
  apply_patch "/" "/ws" (Some (deletePatch "a.txt")) scenarioFs =
    (Success "a.txt" "delete",
     NodeFs.mkState (delete "/ws/a.txt" (NodeFs.nodes scenarioFs)) ∅) /\
  NodeFs.lookupNode
    (NodeFs.mkState (delete "/ws/a.txt" (NodeFs.nodes scenarioFs)) ∅)
    "/ws/a.txt" = None.
Proof.
  apply (delete_removes_the_file "/" "/ws" (deletePatch "a.txt")
           (mkPatch OpDelete "a.txt" None []) "/ws/a.txt"
           (unlines ["one"; "two"; "three"; ""]) scenarioFs); reflexivity.
Defined.

(** X11.  Delete is idempotent as a request: whatever the first delete
    did, sending the same patch again is answered with the same success and
    changes nothing more. *)
Theorem delete_twice_is_delete_once
    (cwd root raw : string) (p : ParsedPatch) (abs : string)
    (st : NodeFs.state) :
  parseSimplifiedPatch raw = Ok p ->
  op p = OpDelete ->
  withinRoot cwd root (path p) = Ok abs ->
  let st1 := snd (apply_patch cwd root (Some raw) st) in
  apply_patch cwd root (Some raw) st = (Success (path p) "delete", st1) /\
  apply_patch cwd root (Some raw) st1 = (Success (path p) "delete", st1).
Proof.
  intros Hp Hop Habs.
  assert (Hrun : forall s,
            apply_patch cwd root (Some raw) s =
            (Success (path p) "delete",
             snd (NodeFs.tryCatch (NodeFs.unlink abs)
                    (fun _ => NodeFs.ret tt) s))).
  { intros s. rewrite (apply_patch_parsed _ _ _ _ _ Hp).
    rewrite (applyParsedPatch_delete _ _ _ _ _ Hop Habs). rewrite Hop.
    unfold NodeFs.tryCatch.
    by destruct (NodeFs.unlink abs s) as [[[]|e] s']. }
  cbv zeta. rewrite !Hrun. cbn [snd]. split; [reflexivity|]. f_equal.
  unfold NodeFs.tryCatch, NodeFs.unlink, NodeFs.ret.
  destruct (NodeFs.lookupNode st abs) as [[c|]|] eqn:E.
  - destruct (NodeFs.writable st (NodePath.dirname abs)) eqn:Hw; simpl.
    + rewrite lookupNode_delete_eq; [reflexivity|].
      intros ->. rewrite lookupNode_root in E. discriminate.
    + by rewrite E, Hw.
  - simpl. by rewrite E.
  - simpl. by rewrite E.
Qed.

Lemma delete_twice_is_delete_once_witness :
  apply_patch "/" "/ws" (Some (deletePatch "a.txt"))
    (snd (apply_patch "/" "/ws" (Some (deletePatch "a.txt")) scenarioFs)) =
  (Success "a.txt" "delete",
   snd (apply_patch "/" "/ws" (Some (deletePatch "a.txt")) scenarioFs)).
Proof.
  apply (delete_twice_is_delete_once "/" "/ws" (deletePatch "a.txt")
           (mkPatch OpDelete "a.txt" None []) "/ws/a.txt" scenarioFs);
    reflexivity.
Defined.

(** X12.  Rewrite is idempotent: once a rewrite of a path the process may
    write has succeeded, the same request again succeeds and leaves the file
    system exactly as the first one left it. *)
Theorem rewrite_twice_is_rewrite_once
    (cwd root p : string) (content : jsValue) (abs : string)
    (st st' : NodeFs.state) (p' o' : string) :
  withinRoot cwd root p = Ok abs ->
  NodeFs.writable st abs = true ->
  rewrite_file cwd root (JsString p) content st = (Success p' o', st') ->
  rewrite_file cwd root (JsString p) content st' = (Success p "rewrite", st').
Proof.
  intros Habs Hw. unfold rewrite_file.
  destruct (negb (Js.truthy (Js.trim p))); [discriminate|].
  fold (contentText content).
  destruct (rewriteFile cwd root p (contentText content) st)
    as [[[]|e] st1] eqn:Hrun; [|discriminate].
  intros [= _ _ <-].
  destruct (rewriteFile_ok _ _ _ _ _ _ _ Habs Hrun) as [Hfile Hdirs].
  revert Hrun. unfold rewriteFile, NodeFs.bindIo, NodeFs.lift. rewrite Habs.
  unfold NodeFs.mkdir. fold (parentDirs abs).
  destruct (NodeFs.mkdirEach _ (parentDirs abs) st) as [[[]|e] st0] eqn:Hmk;
    [|discriminate].
  intros Hwr.
  destruct (mkdirEach_frame _ _ _ _ _ Hmk) as (Hro0 & _ & _).
  destruct (writeFile_ok _ _ _ _ Hwr) as (Hst1 & _ & _).
  rewrite (mkdirEach_present _ _ _ Hdirs).
  unfold NodeFs.writeFile. rewrite Hfile.
  assert (Hw1 : NodeFs.writable st1 abs = true).
  { unfold NodeFs.writable in *. rewrite Hst1. simpl. by rewrite Hro0. }
  rewrite Hw1. do 2 f_equal. rewrite Hst1. simpl.
  by rewrite insert_insert_eq.
Qed.

Lemma rewrite_twice_is_rewrite_once_witness :
  rewrite_file "/" "/ws" (JsString "new/f.txt") (JsString "x")
    (snd (rewrite_file "/" "/ws" (JsString "new/f.txt") (JsString "x") scenarioFs)) =
  (Success "new/f.txt" "rewrite",
   snd (rewrite_file "/" "/ws" (JsString "new/f.txt") (JsString "x") scenarioFs)).
Proof.
  apply (rewrite_twice_is_rewrite_once "/" "/ws" "new/f.txt" (JsString "x")
           "/ws/new/f.txt" scenarioFs _ "new/f.txt" "rewrite"); reflexivity.
Defined.

(** ** The parser *)

Lemma trimEnd_fixed t : Js.trimEnd (Js.trimEnd t) = Js.trimEnd t.
Proof.
  induction t as [|a t IH]; [reflexivity|]. cbn [Js.trimEnd].
  destruct (Js.trimEnd t) as [|b r] eqn:E.
  - destruct (Js.isWhiteSpace a) eqn:Ha; [reflexivity|].
    cbn [Js.trimEnd]. by rewrite Ha.
  - cbn [Js.trimEnd]. cbn [Js.trimEnd] in IH. by rewrite IH.
Qed.

Lemma trimEnd_keeps_head a r :
  Js.isWhiteSpace a = false ->
  exists r', Js.trimEnd (String a r) = String a r'.
Proof.
  intros Ha. cbn [Js.trimEnd]. destruct (Js.trimEnd r); [|eauto].
  rewrite Ha. eauto.
Qed.

Lemma trimStart_head s :
  Js.trimStart s = "" \/
  exists a r, Js.trimStart s = String a r /\ Js.isWhiteSpace a = false.
Proof.
  induction s as [|a s IH]; [by left|]. cbn [Js.trimStart].
  destruct (Js.isWhiteSpace a) eqn:Ha; [exact IH|]. right. eauto.
Qed.

(** Trimming what is trimmed changes nothing. *)
Lemma trim_fixed s : Js.trim (Js.trim s) = Js.trim s.
Proof.
  unfold Js.trim. destruct (trimStart_head s) as [->|(a & r & -> & Ha)];
    [reflexivity|].
  destruct (trimEnd_keeps_head a r Ha) as [r' Hr']. rewrite Hr'.
  cbn [Js.trimStart]. rewrite Ha. rewrite <- Hr'. apply trimEnd_fixed.
Qed.

Lemma findHeader_trimmed ls o f :
  findHeader ls = Some (o, f) -> Js.trim f = f.
Proof.
  induction ls as [|line rest IH]; [discriminate|]. cbn [findHeader].
  repeat match goal with
         | |- context [if ?b then _ else _] => destruct b
         end; try exact IH; intros [= <- <-]; apply trim_fixed.
Qed.

(** X13.  Every patch the parser returns is well formed: its path is not
    empty and carries no white space at either end (so [withinRoot] never
    replaces it by [.]), an add has content and no hunks, an update has no
    content, and a delete has neither. *)
Theorem parsed_patch_is_well_formed (raw : string) (p : ParsedPatch) :
  parseSimplifiedPatch raw = Ok p ->
  Js.truthy (path p) && Js.truthy (Js.trim (path p)) = true /\
  Js.trim (path p) = path p /\
  match op p with
  | OpAdd => is_Some (newContent p) /\ hunks p = []
  | OpUpdate => newContent p = None
  | OpDelete => newContent p = None /\ hunks p = []
  end.
Proof.
  unfold parseSimplifiedPatch.
  destruct (negb (Js.includes _ _)); [discriminate|].
  destruct (findHeader (patchLines raw)) as [[o f]|] eqn:Hh; [|discriminate].
  destruct (Js.truthy f) eqn:Hf; [|discriminate]. cbn [negb].
  pose proof (findHeader_trimmed _ _ _ Hh) as Htrim.
  assert (Hpath : Js.truthy f && Js.truthy (Js.trim f) = true)
    by by rewrite Htrim, Hf.
  destruct o; intros [= <-]; cbn; repeat split; eauto.
Qed.

Lemma parsed_patch_is_well_formed_witness :
  Js.trim "my file.txt" = "my file.txt" /\
  parseSimplifiedPatch
    (unlines ["*** Begin Patch"; "*** Delete File:   my file.txt  "]) =
    Ok (mkPatch OpDelete "my file.txt" None []).
Proof.
  split; [|reflexivity].
  apply (parsed_patch_is_well_formed
           (unlines ["*** Begin Patch"; "*** Delete File:   my file.txt  "])
           (mkPatch OpDelete "my file.txt" None []) eq_refl).
Defined.

Lemma findHeader_skips pre rest :
  Forall (fun l => isHeaderLine l = false) pre ->
  findHeader (pre ++ rest) = findHeader rest.
Proof.
  induction 1 as [|l pre Hl _ IH]; [reflexivity|].
  cbn [app findHeader]. unfold isHeaderLine in Hl.
  apply orb_false_elim in Hl as [Hl Hd]. apply orb_false_elim in Hl as [Ha Hu].
  by rewrite Ha, Hu, Hd.
Qed.

Lemma findHeader_first line post :
  isHeaderLine line = true ->
  findHeader (line :: post) = findHeader [line].
Proof.
  unfold isHeaderLine. intros H. cbn [findHeader].
  destruct (Js.startsWith line "*** Add File:"); [reflexivity|].
  destruct (Js.startsWith line "*** Update File:"); [reflexivity|].
  destruct (Js.startsWith line "*** Delete File:"); [reflexivity | done].
Qed.

(** X14.  The first header line decides: the operation and the path of a
    parsed patch are those written on the first line that begins with one
    of the three header markers, whatever comes after it, later headers
    included. *)
Theorem first_header_line_decides
    (raw : string) (pre post : list string) (line : string) (p : ParsedPatch) :
  patchLines raw = (pre ++ line :: post)%list ->
  Forall (fun l => isHeaderLine l = false) pre ->
  isHeaderLine line = true ->
  parseSimplifiedPatch raw = Ok p ->
  findHeader [line] = Some (op p, path p).
Proof.
  intros Hlines Hpre Hline. unfold parseSimplifiedPatch.
  destruct (negb (Js.includes _ _)); [discriminate|].
  rewrite Hlines at 1. rewrite (findHeader_skips _ _ Hpre).
  rewrite (findHeader_first _ _ Hline).
  destruct (findHeader [line]) as [[o f]|]; [|discriminate].
  destruct (negb (Js.truthy f)); [discriminate|].
  destruct o; by intros [= <-].
Qed.

Lemma first_header_line_decides_witness :
  findHeader ["*** Delete File: a.txt"] = Some (OpDelete, "a.txt") /\
  parseSimplifiedPatch
    (unlines ["*** Begin Patch"; "*** Delete File: a.txt";
              "*** Add File: b.txt"; "+x"]) =
    Ok (mkPatch OpDelete "a.txt" None []).
Proof.
  split; [|reflexivity].
  apply (first_header_line_decides
           (unlines ["*** Begin Patch"; "*** Delete File: a.txt";
                     "*** Add File: b.txt"; "+x"])
           ["*** Begin Patch"] ["*** Add File: b.txt"; "+x"]
           "*** Delete File: a.txt" (mkPatch OpDelete "a.txt" None []));
    try reflexivity.
  by repeat constructor.
Defined.

Lemma findHeader_none ls :
  Forall (fun l => isHeaderLine l = false) ls -> findHeader ls = None.
Proof.
  intros H. rewrite <- (app_nil_r ls). by rewrite findHeader_skips.
Qed.

(** X15.  A patch that begins with the marker but has no usable header is
    answered with [Patch must contain one of Add/Update/Delete headers] and
    nothing is touched: that is so when no line is a header line, and also
    when the first header line names no path, even if a later header is
    complete. *)
Theorem patch_without_usable_header_is_rejected
    (cwd root raw : string) (st : NodeFs.state) :
  Js.includes (hd "" (patchLines raw)) "*** Begin Patch" = true ->
  Forall (fun l => isHeaderLine l = false) (patchLines raw) \/
  (exists pre line post o,
      patchLines raw = (pre ++ line :: post)%list /\
      Forall (fun l => isHeaderLine l = false) pre /\
      isHeaderLine line = true /\
      findHeader [line] = Some (o, "")) ->
  apply_patch cwd root (Some raw) st =
    (Failure "Patch must contain one of Add/Update/Delete headers", st).
Proof.
  intros Hmark Hcase. unfold apply_patch.
  change (default "" (Some raw)) with raw. unfold parseSimplifiedPatch.
  rewrite Hmark. cbn [negb].
  destruct Hcase as [Hnone|(pre & line & post & o & Hlines & Hpre & Hline & Hblank)].
  - by rewrite (findHeader_none _ Hnone).
  - rewrite Hlines, (findHeader_skips _ _ Hpre), (findHeader_first _ _ Hline).
    by rewrite Hblank.
Qed.

Lemma patch_without_usable_header_witness :
  apply_patch "/" "/ws"
    (Some (unlines ["*** Begin Patch"; "*** Update File:   ";
                    "*** Delete File: a.txt"])) scenarioFs =
    (Failure "Patch must contain one of Add/Update/Delete headers", scenarioFs).
Proof.
  apply patch_without_usable_header_is_rejected; [reflexivity|].
  right. exists ["*** Begin Patch"], "*** Update File:   ",
    ["*** Delete File: a.txt"], OpUpdate.
  repeat split; try reflexivity. by repeat constructor.
Defined.

(** ** Hunk headers and hunk lines *)

Lemma digitValue_digitChar d : (d < 10)%N -> digitValue (digitChar d) = Some d.
Proof.
  intros H.
  assert (Hc : (d = 0 \/ d = 1 \/ d = 2 \/ d = 3 \/ d = 4 \/ d = 5 \/ d = 6 \/
                d = 7 \/ d = 8 \/ d = 9)%N) by lia.
  repeat (destruct Hc as [->|Hc]; [reflexivity|]). by subst.
Qed.

Lemma takeDigits_numeral ds : forall acc rest,
  Forall (fun d => (d < 10)%N) ds ->
  noDigitAhead rest ->
  takeDigits acc (numeral ds ++ rest) =
  (fold_left (fun acc d => (10 * acc + d)%N) ds acc, rest).
Proof.
  induction ds as [|d ds IH]; intros acc rest Hds Hrest.
  - change (numeral [] ++ rest) with rest. destruct rest as [|a r]; [reflexivity|].
    cbn in *. by rewrite Hrest.
  - inversion Hds; subst.
    change (numeral (d :: ds) ++ rest)
      with (String (digitChar d) (numeral ds ++ rest)).
    cbn [takeDigits fold_left]. rewrite digitValue_digitChar by done.
    by apply IH.
Qed.

Lemma digits_numeral ds rest :
  ds <> [] ->
  Forall (fun d => (d < 10)%N) ds ->
  noDigitAhead rest ->
  digits (numeral ds ++ rest) = Some (toDouble (numeralValue ds), rest).
Proof.
  intros Hne Hds Hrest. destruct ds as [|d ds]; [done|].
  inversion Hds; subst.
  change (numeral (d :: ds) ++ rest)
    with (String (digitChar d) (numeral ds ++ rest)).
  cbn [digits]. rewrite digitValue_digitChar by done.
  by rewrite takeDigits_numeral.
Qed.

Lemma toDouble_exact n : (n < 2 ^ 53)%N -> toDouble n = n.
Proof. intros H. apply N.ltb_lt in H. unfold toDouble. by rewrite H. Qed.

Lemma sliceFrom_app lit s : Js.sliceFrom (String.length lit) (lit ++ s) = s.
Proof.
  induction lit as [|a lit IH]; [reflexivity|].
  change (String a lit ++ s) with (String a (lit ++ s)). exact IH.
Qed.

Lemma literal_app lit s : literal lit (lit ++ s) = Some s.
Proof. unfold literal. by rewrite prefix_app, sliceFrom_app. Qed.

(** X16.  A line that writes a hunk header with decimal numerals, leading
    zeros allowed, and goes on with any text after the closing [@@], is
    taken for a header, and its four numbers are what [Number] makes of
    the numerals: their values where these are below 2^53, the nearest
    double beyond.  The short form of a unified diff that leaves the
    counts out is not taken for a header. *)
Theorem hunkHeader_reads_numerals (a b c d : list N) (tail : string) :
  Forall (fun ds => ds <> [] /\ Forall (fun x => (x < 10)%N) ds) [a; b; c; d] ->
  hunkHeader ("@@ -" ++ numeral a ++ "," ++ numeral b ++ " +" ++
              numeral c ++ "," ++ numeral d ++ " @@" ++ tail) =
    Some (toDouble (numeralValue a), toDouble (numeralValue b),
          toDouble (numeralValue c), toDouble (numeralValue d)) /\
  (Forall (fun ds => (numeralValue ds < 2 ^ 53)%N) [a; b; c; d] ->
   hunkHeader ("@@ -" ++ numeral a ++ "," ++ numeral b ++ " +" ++
               numeral c ++ "," ++ numeral d ++ " @@" ++ tail) =
     Some (numeralValue a, numeralValue b, numeralValue c, numeralValue d)) /\
  hunkHeader ("@@ -" ++ numeral a ++ " +" ++ numeral c ++ " @@" ++ tail) = None.
Proof.
  intros Hall.
  inversion Hall as [|? ? [Ha1 Ha2] Hall1]; subst.
  inversion Hall1 as [|? ? [Hb1 Hb2] Hall2]; subst.
  inversion Hall2 as [|? ? [Hc1 Hc2] Hall3]; subst.
  inversion Hall3 as [|? ? [Hd1 Hd2] _]; subst.
  assert (Hlong :
    hunkHeader ("@@ -" ++ numeral a ++ "," ++ numeral b ++ " +" ++
                numeral c ++ "," ++ numeral d ++ " @@" ++ tail) =
      Some (toDouble (numeralValue a), toDouble (numeralValue b),
            toDouble (numeralValue c), toDouble (numeralValue d))).
  { unfold hunkHeader. rewrite literal_app. cbn [mbind option_bind].
    rewrite (digits_numeral a) by done. cbn [mbind option_bind].
    rewrite literal_app. cbn [mbind option_bind].
    rewrite (digits_numeral b) by done. cbn [mbind option_bind].
    rewrite literal_app. cbn [mbind option_bind].
    rewrite (digits_numeral c) by done. cbn [mbind option_bind].
    rewrite literal_app. cbn [mbind option_bind].
    rewrite (digits_numeral d) by done. cbn [mbind option_bind].
    by rewrite literal_app. }
  split; [exact Hlong|]. split.
  - intros Hsmall. rewrite Hlong.
    inversion Hsmall as [|? ? Ha Hs1]; subst.
    inversion Hs1 as [|? ? Hb Hs2]; subst.
    inversion Hs2 as [|? ? Hc Hs3]; subst.
    inversion Hs3 as [|? ? Hd _]; subst.
    by rewrite !toDouble_exact.
  - unfold hunkHeader. rewrite literal_app. cbn [mbind option_bind].
    rewrite (digits_numeral a) by done. reflexivity.
Qed.

Lemma hunkHeader_reads_numerals_witness :
  hunkHeader "@@ -012,3 +12,40 @@ function f() {" = Some (12, 3, 12, 40)%N /\
  hunkHeader "@@ -012 +12 @@ function f() {" = None /\
  hunkHeader "@@ -9007199254740993,1 +9007199254740995,1 @@" =
    Some (9007199254740992, 1, 9007199254740996, 1)%N.
Proof.
  destruct (hunkHeader_reads_numerals [0; 1; 2] [3] [1; 2] [4; 0]
              " function f() {")%N as (_ & Hsmall & Hshort).
  { repeat constructor; (discriminate || lia). }
  destruct (hunkHeader_reads_numerals
              [9; 0; 0; 7; 1; 9; 9; 2; 5; 4; 7; 4; 0; 9; 9; 3] [1]
              [9; 0; 0; 7; 1; 9; 9; 2; 5; 4; 7; 4; 0; 9; 9; 5] [1] "")%N
    as (Hbig & _).
  { repeat constructor; (discriminate || lia). }
  split; [|split; [exact Hshort | exact Hbig]].
  apply Hsmall. repeat constructor; reflexivity.
Defined.

Lemma parseHunks_before_first_header pre : forall rest hs,
  Forall (fun l => hunkHeader l = None) pre ->
  parseHunks (pre ++ rest) hs None = parseHunks rest hs None.
Proof.
  induction pre as [|l pre IH]; intros rest hs Hpre; [reflexivity|].
  inversion Hpre as [|? ? Hl Hpre']; subst.
  cbn [app parseHunks]. rewrite Hl. by apply IH.
Qed.

Lemma parse_update_hunks raw p :
  parseSimplifiedPatch raw = Ok p ->
  op p = OpUpdate ->
  hunks p = parseHunks (patchLines raw) [] None.
Proof.
  unfold parseSimplifiedPatch.
  destruct (negb (Js.includes _ _)); [discriminate|].
  destruct (findHeader (patchLines raw)) as [[o f]|]; [|discriminate].
  destruct (negb (Js.truthy f)); [discriminate|].
  destruct o; intros [= <-]; cbn; by intros.
Qed.

(** X17.  In an update, whatever stands before the first hunk header, the
    [---] and [+++] file lines of a unified diff included, adds nothing to
    the hunks: they are those of the lines from the first header on. *)
Theorem lines_before_first_hunk_are_ignored
    (raw : string) (p : ParsedPatch) (pre rest : list string) :
  parseSimplifiedPatch raw = Ok p ->
  op p = OpUpdate ->
  patchLines raw = (pre ++ rest)%list ->
  Forall (fun l => hunkHeader l = None) pre ->
  hunks p = parseHunks rest [] None.
Proof.
  intros Hp Hop Hlines Hpre.
  rewrite (parse_update_hunks _ _ Hp Hop), Hlines.
  by apply parseHunks_before_first_header.
Qed.

Lemma lines_before_first_hunk_witness :
  hunks (mkPatch OpUpdate "a.txt" None
           [mkHunk (mkRange 1 1) (mkRange 1 1) [mkLine Add "x"]]) =
  parseHunks ["@@ -1,1 +1,1 @@"; "+x"] [] None.
Proof.
  apply (lines_before_first_hunk_are_ignored
           (unlines ["*** Begin Patch"; "*** Update File: a.txt";
                     "--- a/a.txt"; "+++ b/a.txt"; "+stray";
                     "@@ -1,1 +1,1 @@"; "+x"])
           (mkPatch OpUpdate "a.txt" None
              [mkHunk (mkRange 1 1) (mkRange 1 1) [mkLine Add "x"]])
           ["*** Begin Patch"; "*** Update File: a.txt";
            "--- a/a.txt"; "+++ b/a.txt"; "+stray"]);
    try reflexivity.
  by repeat constructor.
Defined.

Lemma starts_with_plus_not_header line :
  Js.startsWith line "+" = true -> hunkHeader line = None.
Proof.
  destruct line as [|a l]; [discriminate|]. unfold Js.startsWith. cbn [String.prefix].
  destruct (ascii_dec "+" a) as [<-|]; [|discriminate]. reflexivity.
Qed.

Lemma starts_with_minus_not_header line :
  Js.startsWith line "-" = true -> hunkHeader line = None.
Proof.
  destruct line as [|a l]; [discriminate|]. unfold Js.startsWith. cbn [String.prefix].
  destruct (ascii_dec "-" a) as [<-|]; [|discriminate]. reflexivity.
Qed.

Lemma startsWith_shorter line a rest :
  Js.startsWith line (String a rest) = true ->
  Js.startsWith line (String a "") = true.
Proof.
  destruct line as [|b l]; [discriminate|]. unfold Js.startsWith.
  cbn [String.prefix].
  destruct (ascii_dec a b); [|discriminate]. intros _. by destruct l.
Qed.

Lemma startsWith_other_head line a b rest :
  a <> b ->
  Js.startsWith line (String a "") = true ->
  Js.startsWith line (String b rest) = false.
Proof.
  intros Hab. destruct line as [|c l]; [discriminate|].
  unfold Js.startsWith. cbn [String.prefix].
  destruct (ascii_dec a c) as [<-|]; [|discriminate]. intros _.
  by destruct (ascii_dec b a) as [->|].
Qed.

(** X18.  Inside a hunk a line that begins with [+++] or with [---] is
    neither an add nor a remove line and is not dropped either: it becomes a
    context line with its full text, markers included. *)
Theorem triple_marker_line_is_context
    (line : string) (rest : list string) (hs : list PatchHunk) (h : PatchHunk) :
  Js.startsWith line "+++" = true \/ Js.startsWith line "---" = true ->
  parseHunks (line :: rest) hs (Some h) =
  parseHunks rest hs (Some (pushLine h (mkLine Context line))).
Proof.
  intros [H|H]; cbn [parseHunks].
  - pose proof (startsWith_shorter _ _ _ H) as H1.
    rewrite (starts_with_plus_not_header _ H1), H1, H. cbn [negb andb].
    rewrite (startsWith_other_head line "+" "-" "" ltac:(discriminate) H1).
    cbn [andb].
    rewrite (startsWith_other_head line "+" "*" "**" ltac:(discriminate) H1).
    rewrite (startsWith_other_head line "+" "@" "@" ltac:(discriminate) H1).
    reflexivity.
  - pose proof (startsWith_shorter _ _ _ H) as H1.
    rewrite (starts_with_minus_not_header _ H1), H1, H. cbn [negb andb].
    rewrite (startsWith_other_head line "-" "+" "" ltac:(discriminate) H1).
    cbn [andb].
    rewrite (startsWith_other_head line "-" "*" "**" ltac:(discriminate) H1).
    rewrite (startsWith_other_head line "-" "@" "@" ltac:(discriminate) H1).
    reflexivity.
Qed.

Lemma triple_marker_line_witness :
  parseHunks ["@@ -1,1 +1,1 @@"; "--- old"; "+++ new"] [] None =
  [mkHunk (mkRange 1 1) (mkRange 1 1)
     [mkLine Context "--- old"; mkLine Context "+++ new"]].
Proof.
  change (parseHunks ["@@ -1,1 +1,1 @@"; "--- old"; "+++ new"] [] None)
    with (parseHunks ["--- old"; "+++ new"] []
            (Some (mkHunk (mkRange 1 1) (mkRange 1 1) []))).
  rewrite (triple_marker_line_is_context "--- old") by (by right).
  rewrite (triple_marker_line_is_context "+++ new") by (by left).
  reflexivity.
Defined.

Lemma replaceCRLF_ends_with_newline n : forall s,
  String.length s <= n ->
  exists s', Js.replaceCRLF (s ++ Js.nl) = s' ++ Js.nl.
Proof.
  induction n as [|n IH]; intros s Hlen.
  - destruct s; [|cbn [String.length] in *; lia]. by exists "".
  - destruct s as [|a [|b s2]].
    + by exists "".
    + change (String a "" ++ Js.nl) with (String a (String Js.LF "")).
      rewrite replaceCRLF_two.
      destruct (Ascii.eqb a Js.CR && Ascii.eqb Js.LF Js.LF).
      * by exists "".
      * by exists (String a "").
    + change (String a (String b s2) ++ Js.nl)
        with (String a (String b (s2 ++ Js.nl))).
      rewrite replaceCRLF_two.
      destruct (Ascii.eqb a Js.CR && Ascii.eqb b Js.LF).
      * destruct (IH s2) as [s' Hs']; [cbn [String.length] in *; lia|].
        exists (String Js.LF s'). by rewrite Hs'.
      * destruct (IH (String b s2)) as [s' Hs']; [cbn [String.length] in *; lia|].
        exists (String a s').
        change (String b (s2 ++ Js.nl)) with (String b s2 ++ Js.nl).
        by rewrite Hs'.
Qed.

Lemma header_somewhere_or_nowhere ls :
  Forall (fun l => hunkHeader l = None) ls \/
  Exists (fun l => hunkHeader l <> None) ls.
Proof.
  induction ls as [|l ls [IH|IH]].
  - left. constructor.
  - destruct (hunkHeader l) eqn:E.
    + right. apply Exists_cons_hd. by rewrite E.
    + left. by constructor.
  - right. by apply Exists_cons_tl.
Qed.

Lemma parseHunks_without_header ls hs :
  Forall (fun l => hunkHeader l = None) ls -> parseHunks ls hs None = hs.
Proof.
  intros H. rewrite <- (app_nil_r ls).
  by rewrite parseHunks_before_first_header.
Qed.

(** A final empty line goes to the hunk that is open at the end. *)
Lemma parseHunks_final_blank ls : forall hs current,
  is_Some current \/ Exists (fun l => hunkHeader l <> None) ls ->
  exists init last,
    parseHunks ls hs current = (init ++ [last])%list /\
    parseHunks (ls ++ [""]) hs current =
      (init ++ [pushLine last (mkLine Context "")])%list.
Proof.
  induction ls as [|line rest IH]; intros hs current Hopen.
  - destruct Hopen as [[h ->]|Hex]; [|by inversion Hex].
    exists hs, h. by split.
  - cbn [app parseHunks].
    destruct (hunkHeader line) as [[[[a b] c] d]|] eqn:Hh.
    + apply IH. left. eauto.
    + destruct current as [h|].
      * repeat match goal with
               | |- context [if ?b then _ else _] => destruct b
               end; apply IH; left; eauto.
      * apply IH. right. destruct Hopen as [[h Hh']|Hex]; [done|].
        inversion Hex as [? ? Hl|]; subst; [by rewrite Hh in Hl | done].
Qed.

(** X19.  When the text of an update patch ends with a newline, the empty
    piece after that newline is read as a line of the last hunk: the last
    hunk ends with an empty context line, which the applier then writes
    into the file. *)
Theorem final_newline_adds_empty_context_line
    (body : string) (p : ParsedPatch) :
  parseSimplifiedPatch (body ++ Js.nl) = Ok p ->
  op p = OpUpdate ->
  hunks p <> [] ->
  exists init last lns,
    hunks p = (init ++ [last])%list /\
    lines last = (lns ++ [mkLine Context ""])%list.
Proof.
  intros Hp Hop Hne. rewrite (parse_update_hunks _ _ Hp Hop) in *.
  unfold patchLines in *.
  destruct (replaceCRLF_ends_with_newline _ body (le_n _)) as [s' Hs'].
  rewrite Hs' in *. unfold Js.nl in Hne |- *. rewrite split_snoc_sep in *.
  destruct (header_somewhere_or_nowhere (Js.split Js.LF s')) as [Hnone|Hex].
  - exfalso. apply Hne. apply parseHunks_without_header.
    apply Forall_app. split; [exact Hnone | by repeat constructor].
  - destruct (parseHunks_final_blank (Js.split Js.LF s') [] None (or_intror Hex))
      as (init & last & _ & Hblank).
    exists init, (pushLine last (mkLine Context "")), (lines last).
    by split.
Qed.

Lemma final_newline_witness :
  exists init last lns,
    hunks (mkPatch OpUpdate "a.txt" None
             [mkHunk (mkRange 2 1) (mkRange 2 1)
                [mkLine Remove "two"; mkLine Add "TWO"; mkLine Context ""]]) =
      (init ++ [last])%list /\
    lines last = (lns ++ [mkLine Context ""])%list.
Proof.
  apply (final_newline_adds_empty_context_line scenarioPatch
           (mkPatch OpUpdate "a.txt" None
              [mkHunk (mkRange 2 1) (mkRange 2 1)
                 [mkLine Remove "two"; mkLine Add "TWO"; mkLine Context ""]]));
    [reflexivity | reflexivity | discriminate].
Defined.

(** ** Applying hunks *)

Lemma applyHunk_as_splice ls h :
  (1 <= start (oldRange h))%N ->
  applyHunk ls h =
  spliceAt ls (N.to_nat (start (oldRange h)) - 1)
    (N.to_nat (count (oldRange h))) (replacement (lines h)).
Proof.
  intros Hs. rewrite (applyHunk_spec _ _ Hs). unfold applyHunkSpec.
  by rewrite replacement_filter.
Qed.

(** X20.  Where a hunk lands: for a hunk that starts at line 1 or later
    and not past the end, the lines before its start index stay where they
    are, the replacement block stands at the start index, and every line
    after the replaced range follows the block, shifted by the difference
    between the length of the block and [oldRange.count]. *)
Theorem hunk_keeps_lines_outside_its_range (ls : list string) (h : PatchHunk) :
  (1 <= start (oldRange h))%N ->
  N.to_nat (start (oldRange h)) - 1 <= length ls ->
  let i := N.to_nat (start (oldRange h)) - 1 in
  let c := N.to_nat (count (oldRange h)) in
  let block := replacement (lines h) in
  (forall j, j < i -> applyHunk ls h !! j = ls !! j) /\
  (forall k, k < length block -> applyHunk ls h !! (i + k) = block !! k) /\
  (forall k, applyHunk ls h !! (i + length block + k) = ls !! (i + c + k)).
Proof.
  intros Hs Hi i c block. rewrite (applyHunk_as_splice _ _ Hs).
  fold i c block. unfold spliceAt.
  assert (Hlen : length (take i ls) = i) by (rewrite length_take; lia).
  split; [|split].
  - intros j Hj. rewrite lookup_app_l by lia. by apply lookup_take_lt.
  - intros k Hk. rewrite lookup_app_r by lia. rewrite Hlen.
    replace (i + k - i) with k by lia. by apply lookup_app_l.
  - intros k. rewrite lookup_app_r by lia. rewrite Hlen.
    replace (i + length block + k - i) with (length block + k) by lia.
    rewrite lookup_app_r by lia.
    replace (length block + k - length block) with k by lia.
    by rewrite lookup_drop.
Qed.

Lemma hunk_keeps_lines_outside_its_range_witness :
  applyHunk ["a"; "b"; "c"; "d"]
    (mkHunk (mkRange 2 1) (mkRange 2 2)
       [mkLine Remove "b"; mkLine Add "x"; mkLine Add "y"]) !! (1 + 2 + 1) =
  ["a"; "b"; "c"; "d"] !! (1 + 1 + 1).
Proof.
  destruct (hunk_keeps_lines_outside_its_range ["a"; "b"; "c"; "d"]
              (mkHunk (mkRange 2 1) (mkRange 2 2)
                 [mkLine Remove "b"; mkLine Add "x"; mkLine Add "y"]))
    as (_ & _ & Hafter); [simpl; lia | simpl; lia |].
  exact (Hafter 1).
Defined.

(** X21.  A hunk that says again what is there changes no line: when the
    texts of its add and context lines are the very lines of the range it
    replaces, the line sequence is the same after it. *)
Theorem hunk_restating_its_range_is_identity (ls : list string) (h : PatchHunk) :
  (1 <= start (oldRange h))%N ->
  replacement (lines h) =
    take (N.to_nat (count (oldRange h)))
         (drop (N.to_nat (start (oldRange h)) - 1) ls) ->
  applyHunk ls h = ls.
Proof.
  intros Hs Hsame. rewrite (applyHunk_as_splice _ _ Hs). unfold spliceAt.
  rewrite Hsame, <- drop_drop.
  by rewrite (take_drop _ (drop _ ls)), take_drop.
Qed.

Lemma hunk_restating_its_range_witness :
  applyHunk ["a"; "b"; "c"]
    (mkHunk (mkRange 2 2) (mkRange 2 2)
       [mkLine Context "b"; mkLine Remove "zzz"; mkLine Add "c"]) =
  ["a"; "b"; "c"].
Proof.
  apply hunk_restating_its_range_is_identity; [simpl; lia | reflexivity].
Defined.

Lemma splice_elements {A : Type} (l : list A) (s c : Z) (items : list A) x :
  x ∈ splice l s c items -> x ∈ l \/ x ∈ items.
Proof.
  unfold splice. rewrite !elem_of_app. intros [H|[H|H]].
  - left. by eapply subseteq_take.
  - by right.
  - left. by eapply subseteq_drop.
Qed.

Lemma replacement_elements lns t :
  t ∈ replacement lns ->
  exists ln, ln ∈ lns /\ text ln = t /\ type ln <> Remove.
Proof.
  induction lns as [|ln rest IH]; cbn [replacement]; [by intros ?%elem_of_nil|].
  destruct (type ln) eqn:E.
  - intros [->|H]%elem_of_cons.
    + exists ln. rewrite E. repeat split; [left | done].
    + destruct (IH H) as (ln' & ? & ? & ?). exists ln'. repeat split; [by right|done..].
  - intros [->|H]%elem_of_cons.
    + exists ln. rewrite E. repeat split; [left | done].
    + destruct (IH H) as (ln' & ? & ? & ?). exists ln'. repeat split; [by right|done..].
  - intros H. destruct (IH H) as (ln' & ? & ? & ?).
    exists ln'. repeat split; [by right|done..].
Qed.

(** X22.  An update invents no text: whatever the hunks say about ranges,
    every line of the result is a line of the original sequence or the text
    of an add or context line of one of the hunks. *)
Theorem applyHunks_invents_no_line (hs : list PatchHunk) :
  forall (ls : list string) (l : string),
    l ∈ applyHunks ls hs ->
    l ∈ ls \/
    exists h ln, h ∈ hs /\ ln ∈ lines h /\ text ln = l /\ type ln <> Remove.
Proof.
  induction hs as [|h rest IH]; intros ls l Hl; [by left|].
  cbn [applyHunks] in Hl. destruct (IH _ _ Hl) as [Hin|(h' & ln & ? & ? & ? & ?)].
  - unfold applyHunk in Hin. apply splice_elements in Hin as [Hin|Hin];
      [by left|].
    right. destruct (replacement_elements _ _ Hin) as (ln & ? & ? & ?).
    exists h, ln. repeat split; [left | done..].
  - right. exists h', ln. repeat split; [by right | done..].
Qed.

Lemma applyHunks_invents_no_line_witness :
  "y" ∈ ["a"; "b"; "c"; "d"] \/
  exists h ln, h ∈ twoHunks /\ ln ∈ lines h /\ text ln = "y" /\ type ln <> Remove.
Proof.
  apply (applyHunks_invents_no_line twoHunks ["a"; "b"; "c"; "d"] "y").
  change (applyHunks ["a"; "b"; "c"; "d"] twoHunks)
    with ["x"; "y"; "z"; "c"; "d"].
  apply elem_of_cons. right. apply elem_of_cons. by left.
Defined.

(** ** The routes of the two listeners *)

(** X23.  Every request is answered by exactly one of the two listeners
    of the server, except a request to [/mcp/apply_patch] or
    [/mcp/rewrite_file] whose method is not POST: the dashboard listener
    leaves it to the MCP listener, which ignores it, so nobody answers. *)
Theorem exactly_one_listener_answers (method url : string) :
  answers method url =
  if (String.eqb url "/mcp/apply_patch" || String.eqb url "/mcp/rewrite_file")
     && negb (String.eqb method "POST")
  then 0 else 1.
Proof.
  unfold answers, mcpListener, Dashboard.dashboardRoute.
  destruct (String.eqb_spec url "/mcp/apply_patch") as [->|H1];
    [by destruct (String.eqb method "POST")|].
  destruct (String.eqb_spec url "/mcp/rewrite_file") as [->|H2];
    [by destruct (String.eqb method "POST")|].
  cbn [orb andb].
  assert (Hmcp : (if negb (String.eqb method "POST") then None
                  else @None mcpEndpoint) = None)
    by by destruct (String.eqb method "POST").
  rewrite Hmcp.
  repeat match goal with
         | |- context [if ?b then _ else _] => destruct b
         end; reflexivity.
Qed.

(** X24.  Only the exact URLs reach the patch engine: any other URL below
    [/mcp/], for instance one with a query string, is ignored by the MCP
    listener and answered by the dashboard with its JSON 404, whatever the
    method. *)
Theorem other_mcp_urls_get_json_404 (method url : string) :
  Js.startsWith url "/mcp/" = true ->
  url <> "/mcp/apply_patch" ->
  url <> "/mcp/rewrite_file" ->
  Dashboard.dashboardRoute method url = Dashboard.NotFoundJson /\
  mcpListener method url = None.
Proof.
  intros Hpre H1 H2. unfold Dashboard.dashboardRoute, mcpListener.
  destruct (String.eqb_spec url "/mcp/apply_patch"); [done|].
  destruct (String.eqb_spec url "/mcp/rewrite_file"); [done|].
  cbn [orb]. rewrite Hpre, !orb_true_r.
  split; [|by destruct (negb (String.eqb method "POST"))].
  repeat match goal with
         | |- context [String.eqb url ?lit] =>
             destruct (String.eqb_spec url lit) as [->|_];
             [discriminate Hpre|]
         end.
  cbn [andb orb]. rewrite !andb_false_r. reflexivity.
Qed.

Lemma other_mcp_urls_get_json_404_witness :
  Dashboard.dashboardRoute "POST" "/mcp/apply_patch?dry=1" =
    Dashboard.NotFoundJson /\
  mcpListener "POST" "/mcp/apply_patch?dry=1" = None.
Proof.
  apply (other_mcp_urls_get_json_404 "POST" "/mcp/apply_patch?dry=1");
    [reflexivity | discriminate | discriminate].
Defined.

(** ** The address of the model server *)

Lemma endsWith_app_suffix (a b : string) : Dashboard.endsWith (a ++ b) b = true.
Proof.
  induction a as [|x a IH].
  - change ("" ++ b) with b. destruct b; cbn [Dashboard.endsWith];
      by rewrite String.eqb_refl.
  - change (String x a ++ b) with (String x (a ++ b)).
    cbn [Dashboard.endsWith]. rewrite IH. apply orb_true_r.
Qed.

Lemma endsWith_slash_app (a b : string) :
  b <> "" ->
  Dashboard.endsWith (a ++ b) "/" = Dashboard.endsWith b "/".
Proof.
  intros Hb. induction a as [|x a IH]; [reflexivity|].
  change (String x a ++ b) with (String x (a ++ b)).
  cbn [Dashboard.endsWith]. rewrite IH.
  destruct (a ++ b) as [|y r] eqn:E.
  - destruct a; [by subst | discriminate].
  - cbn [String.eqb]. by destruct (Ascii.eqb x "/").
Qed.

Lemma stripTrailingSlashes_no_slash s :
  Dashboard.endsWith (Dashboard.stripTrailingSlashes s) "/" = false.
Proof.
  induction s as [|a s IH]; [reflexivity|].
  cbn [Dashboard.stripTrailingSlashes].
  destruct (Dashboard.stripTrailingSlashes s) as [|b r].
  - change Js.slash with "/"%char.
    destruct (Ascii.eqb a "/") eqn:E; [reflexivity|].
    cbn [Dashboard.endsWith String.eqb]. by rewrite E.
  - change (Dashboard.endsWith (String a (String b r)) "/")
      with (String.eqb (String a (String b r)) "/" ||
            Dashboard.endsWith (String b r) "/").
    rewrite IH. cbn [String.eqb]. by destruct (Ascii.eqb a "/").
Qed.

Lemma stripTrailingSlashes_fixed s :
  Dashboard.endsWith s "/" = false -> Dashboard.stripTrailingSlashes s = s.
Proof.
  induction s as [|a s IH]; [reflexivity|].
  change (Dashboard.endsWith (String a s) "/")
    with (String.eqb (String a s) "/" || Dashboard.endsWith s "/").
  intros H. apply orb_false_elim in H as [Ha Hs].
  cbn [Dashboard.stripTrailingSlashes]. rewrite (IH Hs).
  destruct s as [|b r]; [|reflexivity].
  change Js.slash with "/"%char. cbn [String.eqb] in Ha.
  by destruct (Ascii.eqb a "/").
Qed.

Lemma normalizeApiBase_no_slash (env : option string) (input : string) :
  Dashboard.endsWith (Dashboard.normalizeApiBase env input) "/" = false.
Proof.
  unfold Dashboard.normalizeApiBase.
  destruct (negb (Js.truthy (Js.trim (orElse input "")))).
  - unfold Dashboard.LM_CHAT_URL. by rewrite endsWith_slash_app.
  - destruct (Dashboard.endsWith _ "/chat/completions");
      [apply stripTrailingSlashes_no_slash|].
    destruct (Dashboard.endsWith _ "/v1");
      [by rewrite endsWith_slash_app | apply stripTrailingSlashes_no_slash].
Qed.

(** X25.  [normalizeApiBase] never returns an address that ends with a
    slash, whatever the input and the environment: neither the default
    address, nor an address kept as typed, nor one completed with
    [/chat/completions]. *)
Theorem normalizeApiBase_has_no_trailing_slash
    (env : option string) (input : string) :
  Dashboard.endsWith (Dashboard.normalizeApiBase env input) "/" = false /\
  Dashboard.endsWith (Dashboard.LM_CHAT_URL env) "/" = false.
Proof.
  split; [apply normalizeApiBase_no_slash|].
  unfold Dashboard.LM_CHAT_URL. by rewrite endsWith_slash_app.
Qed.

Lemma orElse_empty s : orElse s "" = s.
Proof. by destruct s. Qed.

(** X26.  Normalising is stable: an address that [normalizeApiBase] has
    returned, if it is not empty and carries no white space at its ends,
    is returned unchanged when it is normalised again, as happens on every
    save of the dashboard state. *)
Theorem normalizeApiBase_is_stable (env : option string) (input : string) :
  let r := Dashboard.normalizeApiBase env input in
  r <> "" ->
  Js.trim r = r ->
  Dashboard.normalizeApiBase env r = r.
Proof.
  intros r Hne Htrim.
  assert (Hslash : Dashboard.endsWith r "/" = false)
    by apply normalizeApiBase_no_slash.
  assert (Hshape : Dashboard.endsWith r "/chat/completions" = true \/
                   Dashboard.endsWith r "/v1" = false).
  { unfold r, Dashboard.normalizeApiBase.
    destruct (negb (Js.truthy (Js.trim (orElse input "")))).
    - left. apply endsWith_app_suffix.
    - set (noTrail := Dashboard.stripTrailingSlashes (Js.trim (orElse input ""))).
      destruct (Dashboard.endsWith noTrail "/chat/completions") eqn:E1;
        [by left|].
      destruct (Dashboard.endsWith noTrail "/v1") eqn:E2; [|by right].
      left. apply endsWith_app_suffix. }
  unfold Dashboard.normalizeApiBase at 1. rewrite orElse_empty, Htrim.
  destruct r as [|a r'] eqn:Er; [done|]. cbn [Js.truthy negb].
  rewrite (stripTrailingSlashes_fixed _ Hslash).
  destruct Hshape as [->|H]; [reflexivity|].
  destruct (Dashboard.endsWith _ "/chat/completions"); [reflexivity|].
  by rewrite H.
Qed.

Lemma normalizeApiBase_is_stable_witness :
  Dashboard.normalizeApiBase None " http://host:1234/v1// " =
    "http://host:1234/v1/chat/completions" /\
  Dashboard.normalizeApiBase None "http://host:1234/v1/chat/completions" =
    "http://host:1234/v1/chat/completions".
Proof.
  split; [reflexivity|].
  apply (normalizeApiBase_is_stable None " http://host:1234/v1// ");
    [discriminate | reflexivity].
Defined.

(** ** Trimming the conversation *)

Lemma totalChars_cons {M : Type} (size : M -> N) m rest :
  Dashboard.totalChars size (m :: rest) =
  (size m + Dashboard.totalChars size rest)%N.
Proof.
  unfold Dashboard.totalChars. cbn [fold_left].
  assert (H : forall l a, fold_left (fun acc m => (acc + size m)%N) l a =
                         (a + fold_left (fun acc m => (acc + size m)%N) l 0)%N).
  { induction l as [|x l IH]; intros a; cbn [fold_left]; [lia|].
    rewrite (IH (a + size x)%N), (IH (0 + size x)%N). lia. }
  rewrite H. lia.
Qed.

(** X27.  [trimMessages] keeps the longest tail of the conversation that
    fits: what it returns is the input without some oldest messages, it is
    not empty unless the input is, it fits in [MAX_MODEL_CHARS] unless it
    is a single message, and every longer tail was too large. *)
Theorem trimMessages_keeps_longest_fitting_tail
    {M : Type} (size : M -> N) (msgs : list M) :
  exists dropped,
    msgs = (dropped ++ Dashboard.trimMessages size msgs)%list /\
    (msgs <> [] -> Dashboard.trimMessages size msgs <> []) /\
    ((Dashboard.totalChars size (Dashboard.trimMessages size msgs)
        <= Dashboard.MAX_MODEL_CHARS)%N \/
     length (Dashboard.trimMessages size msgs) = 1) /\
    (forall k, k < length dropped ->
       (Dashboard.MAX_MODEL_CHARS < Dashboard.totalChars size (drop k msgs))%N).
Proof.
  induction msgs as [|m rest IH].
  - exists []. repeat split; [done | by left | intros k Hk; cbn in Hk; lia].
  - cbn [Dashboard.trimMessages].
    destruct (N.ltb_spec Dashboard.MAX_MODEL_CHARS
                (Dashboard.totalChars size (m :: rest))) as [Hbig|Hfit].
    + destruct rest as [|m' rest'].
      * exists []. repeat split; [done | by right | intros k Hk; cbn in Hk; lia].
      * change (1 <? length (m :: m' :: rest'))%nat with true. cbn [andb].
        destruct IH as (dropped & Heq & Hne & Hfit & Hmin).
        exists (m :: dropped). split; [by rewrite Heq at 1|].
        split; [intros _; by apply Hne|]. split; [exact Hfit|].
        intros [|k] Hk; [exact Hbig|]. cbn [drop]. apply Hmin.
        cbn [length] in Hk. lia.
    + exists []. cbn [andb]. repeat split;
        [done | by left | intros k Hk; cbn in Hk; lia].
Qed.

Lemma trimMessages_keeps_longest_fitting_tail_witness :
  exists dropped,
    [20000; 10000; 5000]%N =
      (dropped ++ Dashboard.trimMessages (fun m : N => m) [20000; 10000; 5000]%N)%list /\
    Dashboard.trimMessages (fun m : N => m) [20000; 10000; 5000]%N =
      [10000; 5000]%N.
Proof.
  destruct (trimMessages_keeps_longest_fitting_tail (fun m : N => m)
              [20000; 10000; 5000]%N) as (dropped & Heq & _).
  exists dropped. split; [exact Heq | reflexivity].
Defined.

(** X28.  When the system message and the conversation together are too
    large, the system message is the first thing dropped: the messages sent
    to the model are the trimmed conversation alone. *)
Theorem system_message_is_dropped_first
    {M : Type} (size : M -> N) (systemMessage : M) (userMessages : list M) :
  userMessages <> [] ->
  (Dashboard.MAX_MODEL_CHARS <
   Dashboard.totalChars size (systemMessage :: userMessages))%N ->
  Dashboard.buildBaseMessages size systemMessage userMessages =
  Dashboard.trimMessages size userMessages.
Proof.
  intros Hne Hbig. unfold Dashboard.buildBaseMessages.
  cbn [Dashboard.trimMessages].
  apply N.ltb_lt in Hbig. rewrite Hbig.
  destruct userMessages; [done | reflexivity].
Qed.

Lemma system_message_is_dropped_first_witness :
  Dashboard.buildBaseMessages (fun m : N => m) 2000%N [31000%N; 500%N] =
  [31000%N; 500%N].
Proof.
  rewrite (system_message_is_dropped_first (fun m : N => m) 2000%N
             [31000%N; 500%N]); [reflexivity | discriminate | reflexivity].
Defined.
